(** * Welford's online variance: the accumulator of [welford.py]

    A shallow embedding of class [Welford] and the proofs of its
    specification.

    Numbers.  The accumulator stores a Python [int] (the count) and two
    Python [float]s (mean and sum of squared differences).  The count is a
    [Z].  Floating point is read as exact arithmetic: a finite float is a
    real number, an [int] operand of a float operation is injected with
    [IZR], and there is neither rounding nor overflow.  The one non-finite
    value the code creates itself, [float('nan')], is a separate
    constructor of the type of query results.  Observations are finite, so
    the two float fields are real numbers.

    Objects.  Accumulators are mutable objects and two names may denote the
    same one ([w.merge(w)] is legal Python), so methods work on a heap of
    objects and take references.  The heap is the list of all accumulator
    objects in creation order; a reference is an index into it.

    Exceptions.  A method either returns a value or raises; in both cases
    the heap it leaves behind is part of the outcome, since fields assigned
    before a [raise] stay assigned.

    Rounding.  Module [Binary64] has the arithmetic of [add] and [merge]
    once more, on IEEE 754 binary64 numbers as Python computes it.  It
    evaluates the code on concrete inputs where rounding or overflow makes
    it differ from exact arithmetic. *)

From Stdlib Require Import PrimFloat.
From Stdlib Require SpecFloat FloatOps.
From Stdlib Require Import ZArith Reals Lra Lia.
From stdpp Require Import base list.

#[local] Open Scope Z_scope.

(** ** Values *)

(** A reference to an object of class [Welford]. *)
Abbreviation loc := nat.

(** A Python [float] as a query returns it. *)
Inductive pyfloat : Type :=
| Fin (r : R)
| NaN.

#[local] Set Warnings "-register-all".

(** The arguments the methods are called with: [None], a scalar ([int] or
    finite [float]), an instance of [Welford], or a finite iterable given
    by its elements in iteration order. *)
Inductive pyval : Type :=
| VNone
| VNum (x : R)
| VWelford (l : loc)
| VIter (xs : list pyval).

(** The exceptions the code can raise. *)
Inductive exn : Type :=
| ZeroDivisionError
| ValueError
| TypeError.

(** The state of one accumulator object: its three private fields
    [__count], [__m1], [__m2]. *)
Record state : Type := State {
  __count : Z;
  __m1 : R;
  __m2 : R
}.

Abbreviation heap := (list state).

(** The outcome of a call: a value, or an exception, each with the heap
    left behind.  [Wrong] is not a Python outcome: the call was given a
    reference that denotes no object of the heap. *)
Inductive outcome (A : Type) : Type :=
| Ret (a : A) (h : heap)
| Raise (e : exn) (h : heap)
| Wrong.

Arguments Ret {A} a h.
Arguments Raise {A} e h.
Arguments Wrong {A}.

(** ** The monad of heap-passing computations that may raise *)

Definition M (A : Type) : Type := heap -> outcome A.

Definition ret {A} (a : A) : M A := fun h => Ret a h.

Definition bind {A B} (m : M A) (k : A -> M B) : M B :=
  fun h =>
    match m h with
    | Ret a h' => k a h'
    | Raise e h' => Raise e h'
    | Wrong => Wrong
    end.

Definition raise {A} (e : exn) : M A := fun h => Raise e h.

(** Reading and assigning the fields of the object behind a reference. *)
Definition get (l : loc) : M state :=
  fun h =>
    match h !! l with
    | Some s => Ret s h
    | None => Wrong
    end.

Definition put (l : loc) (s : state) : M unit :=
  fun h =>
    match h !! l with
    | Some _ => Ret tt (<[l := s]> h)
    | None => Wrong
    end.

#[global] Instance M_ret : MRet M := @ret.
#[global] Instance M_bind : MBind M := fun A B k m => bind m k.

(** [self.f] and [self.f = v], field by field. *)
Definition getattr {A} (f : state -> A) (l : loc) : M A :=
  s ← get l; mret (f s).

Definition set_count (l : loc) (v : Z) : M unit :=
  s ← get l; put l (State v (__m1 s) (__m2 s)).

Definition set_m1 (l : loc) (v : R) : M unit :=
  s ← get l; put l (State (__count s) v (__m2 s)).

Definition set_m2 (l : loc) (v : R) : M unit :=
  s ← get l; put l (State (__count s) (__m1 s) v).

(** Object creation: the new object goes to the end of the heap; its
    fields hold placeholders until [__init__] assigns them. *)
Definition new : M loc :=
  fun h => Ret (length h) (h ++ [State 0 0 0]).

(** ** Float operations *)

(** [x / n] for a float [x] and an [int] [n]: Python raises on a zero
    divisor instead of producing an infinity or a NaN. *)
Definition truediv (x : R) (n : Z) : M R :=
  if n =? 0 then raise ZeroDivisionError else mret (x / IZR n)%R.

(** [elem - m] for a float [m]: defined when [elem] is a number. *)
Definition sub_float (elem : pyval) (m : R) : M R :=
  match elem with
  | VNum x => mret (x - m)%R
  | _ => raise TypeError
  end.

(** [math.sqrt]: NaN goes through, a negative argument raises. *)
Definition math_sqrt (x : pyfloat) : M pyfloat :=
  match x with
  | NaN => mret NaN
  | Fin r => if Rlt_dec r 0 then raise ValueError else mret (Fin (sqrt r))
  end.

(** ** Class [Welford] *)

Module Welford.

(** The read-only properties. *)

Definition acc (self : loc) : M (Z * R * R) :=
  c ← getattr __count self;
  m1 ← getattr __m1 self;
  m2 ← getattr __m2 self;
  mret (c, m1, m2).

Definition count (self : loc) : M Z := getattr __count self.

Definition mean (self : loc) : M R := getattr __m1 self.

Definition var (self : loc) : M pyfloat :=
  c ← getattr __count self;
  if c <? 2 then mret NaN
  else
    m2 ← getattr __m2 self;
    c ← getattr __count self;
    v ← truediv m2 (c - 1);
    mret (Fin v).

Definition varp (self : loc) : M pyfloat :=
  c ← getattr __count self;
  if c <? 2 then mret NaN
  else
    m2 ← getattr __m2 self;
    c ← getattr __count self;
    v ← truediv m2 c;
    mret (Fin v).

Definition std (self : loc) : M pyfloat := v ← var self; math_sqrt v.

Definition stdp (self : loc) : M pyfloat := v ← varp self; math_sqrt v.

(** [merge]: the new fields are computed into local variables from both
    objects, and only then assigned to [self]. *)
Definition merge (self other : loc) : M pyval :=
  ca ← getattr __count self;
  cb ← getattr __count other;
  let count := ca + cb in
  ma ← getattr __m1 self;
  mb ← getattr __m1 other;
  let delta := (ma - mb)%R in
  let delta2 := (delta * delta)%R in
  ca ← getattr __count self;
  ma ← getattr __m1 self;
  cb ← getattr __count other;
  mb ← getattr __m1 other;
  m1 ← truediv (IZR ca * ma + IZR cb * mb) count;
  m2a ← getattr __m2 self;
  m2b ← getattr __m2 other;
  ca ← getattr __count self;
  cb ← getattr __count other;
  q ← truediv (delta2 * IZR (ca * cb)) count;
  let m2 := (m2a + m2b + q)%R in
  set_count self count;;
  set_m1 self m1;;
  set_m2 self m2;;
  mret (VWelford self).

(** [add]: an accumulator argument is merged; anything else is used as a
    number, after the count has been incremented. *)
Definition add (self : loc) (elem : pyval) : M pyval :=
  match elem with
  | VWelford other => merge self other;; mret (VWelford self)
  | _ =>
      c ← getattr __count self;
      set_count self (c + 1);;
      m1 ← getattr __m1 self;
      delta ← sub_float elem m1;
      m1 ← getattr __m1 self;
      c ← getattr __count self;
      d ← truediv delta c;
      set_m1 self (m1 + d);;
      m2 ← getattr __m2 self;
      m1 ← getattr __m1 self;
      e ← sub_float elem m1;
      set_m2 self (m2 + delta * e);;
      mret (VWelford self)
  end.

Fixpoint add_all_loop (self : loc) (iterable : list pyval) : M unit :=
  match iterable with
  | [] => mret tt
  | elem :: rest => add self elem;; add_all_loop self rest
  end.

Definition add_all (self : loc) (iterable : list pyval) : M pyval :=
  add_all_loop self iterable;; mret (VWelford self).

Definition __init__ (self : loc) (data : pyval) : M unit :=
  set_count self 0;;
  set_m1 self 0;;
  set_m2 self 0;;
  match data with
  | VNone => mret tt
  | VIter xs => add_all self xs;; mret tt
  | _ => add self data;; mret tt
  end.

(** The constructor call [Welford(data)]. *)
Definition Welford (data : pyval) : M loc :=
  self ← new;
  __init__ self data;;
  mret self.

End Welford.

(** ** The effect of one call on the fields *)

(** A freshly constructed accumulator. *)
Definition empty : state := State 0 0 0.

(** The fields after [add] of the number [x], as [add] computes them. *)
Definition add_fields (x : R) (s : state) : state :=
  let c := __count s + 1 in
  let delta := (x - __m1 s)%R in
  let m1 := (__m1 s + delta / IZR c)%R in
  State c m1 (__m2 s + delta * (x - m1)).

(** The fields of [self] after [merge], from the fields [a] of [self] and
    [b] of [other] before it. *)
Definition merge_fields (a b : state) : state :=
  let c := __count a + __count b in
  let delta := (__m1 a - __m1 b)%R in
  State c
    ((IZR (__count a) * __m1 a + IZR (__count b) * __m1 b) / IZR c)
    (__m2 a + __m2 b + delta * delta * IZR (__count a * __count b) / IZR c).

(** The fields after [add] of each number of a list, in order. *)
Definition fold_fields (xs : list R) (s : state) : state :=
  fold_left (fun s x => add_fields x s) xs s.

(** ** The textbook statistics of a list *)

Definition total (xs : list R) : R := fold_right Rplus 0%R xs.

Definition two_pass_mean (xs : list R) : R :=
  (total xs / INR (length xs))%R.

(** Second pass: squared deviations from the mean of the first pass, over
    [n - 1]. *)
Definition two_pass_var (xs : list R) : R :=
  (total (map (fun x => (x - two_pass_mean xs) * (x - two_pass_mean xs)) xs)
   / (INR (length xs) - 1))%R.

(** ** Invariants *)

(** The fields [s] summarise [n] numbers of sum [t] and sum of squares
    [q]. *)
Definition summarises (n : Z) (t q : R) (s : state) : Prop :=
  __count s = n /\ (__m1 s * IZR n = t)%R /\ (__m2 s = q - __m1 s * t)%R.

(** The data-model invariant of an accumulator. *)
Definition valid (s : state) : Prop :=
  0 <= __count s /\ (0 <= __m2 s)%R.

(** [count], [mean] and [var] of the object [l] in heap [h] are those of
    the object [l'] in heap [h']. *)
Definition same_stats (l : loc) (h : heap) (l' : loc) (h' : heap) : Prop :=
  exists (c : Z) (m : R) (v : pyfloat),
    Welford.count l h = Ret c h /\ Welford.count l' h' = Ret c h' /\
    Welford.mean l h = Ret m h /\ Welford.mean l' h' = Ret m h' /\
    Welford.var l h = Ret v h /\ Welford.var l' h' = Ret v h'.

(** The population counterpart of [two_pass_var]: the same squared
    deviations, over [n]. *)
Definition two_pass_varp (xs : list R) : R :=
  (total (map (fun x => (x - two_pass_mean xs) * (x - two_pass_mean xs)) xs)
   / INR (length xs))%R.

(** Every reference in an element, or in the data given to the
    constructor, denotes an object of the heap. *)
Definition elem_ok (h : heap) (elem : pyval) : Prop :=
  match elem with
  | VWelford l => (l < length h)%nat
  | _ => True
  end.

Definition data_ok (h : heap) (data : pyval) : Prop :=
  match data with
  | VIter xs => Forall (elem_ok h) xs
  | _ => elem_ok h data
  end.

(** The call returned or raised, and the heap it left satisfies [P]. *)
Definition leaves {A} (P : heap -> Prop) (o : outcome A) : Prop :=
  match o with
  | Ret _ h' | Raise _ h' => P h'
  | Wrong => False
  end.

(** Every object of the heap satisfies the data-model invariant, and the
    heap has at least [n] objects. *)
Definition valid_heap (n : nat) (h : heap) : Prop :=
  Forall valid h /\ (n <= length h)%nat.

(** ** The arithmetic in binary64 *)

Module Binary64.

(** The exceptions of the arithmetic. *)
Inductive exn : Type :=
| ZeroDivisionError
| OverflowError.

(** The fields of one accumulator, the two floats being binary64. *)
Record state : Type := State {
  __count : Z;
  __m1 : float;
  __m2 : float
}.

Definition bind {A B} (m : exn + A) (k : A -> exn + B) : exn + B :=
  match m with
  | inl e => inl e
  | inr a => k a
  end.

(** The conversion of an [int] operand of a float operation: to the
    nearest float, ties to even; Python raises when the [int] is beyond
    the range of the floats. *)
Definition float_of_int (n : Z) : exn + float :=
  let f := FloatOps.SF2Prim
             (SpecFloat.binary_normalize FloatOps.prec FloatOps.emax n 0 false)
  in
  if is_infinity f then inl OverflowError else inr f.

(** [n * x] and [x * n] for an [int] [n] and a float [x]. *)
Definition mul_int (n : Z) (x : float) : exn + float :=
  bind (float_of_int n) (fun f => inr (f * x)%float).

Definition mul_by_int (x : float) (n : Z) : exn + float :=
  bind (float_of_int n) (fun f => inr (x * f)%float).

(** [x / n] for a float [x] and an [int] [n]. *)
Definition truediv (x : float) (n : Z) : exn + float :=
  bind (float_of_int n) (fun f =>
  if (f =? 0)%float then inl ZeroDivisionError else inr (x / f)%float).

(** The fields of [Welford()]. *)
Definition empty : state := State 0 0%float 0%float.

(** The fields of [self] after [self.add(x)] for a float [x], from its
    fields [s] before. *)
Definition add (x : float) (s : state) : exn + state :=
  let c := __count s + 1 in
  let delta := (x - __m1 s)%float in
  bind (truediv delta c) (fun d =>
  let m1 := (__m1 s + d)%float in
  inr (State c m1 (__m2 s + delta * (x - m1))%float)).

(** The fields of [self] after [self.add_all(xs)] for floats [xs]. *)
Fixpoint add_all (xs : list float) (s : state) : exn + state :=
  match xs with
  | [] => inr s
  | x :: rest => bind (add x s) (add_all rest)
  end.

(** The fields of [self] after [self.merge(other)], from the fields [a] of
    [self] and [b] of [other] before. *)
Definition merge (a b : state) : exn + state :=
  let count := __count a + __count b in
  let delta := (__m1 a - __m1 b)%float in
  let delta2 := (delta * delta)%float in
  bind (mul_int (__count a) (__m1 a)) (fun ta =>
  bind (mul_int (__count b) (__m1 b)) (fun tb =>
  bind (truediv (ta + tb)%float count) (fun m1 =>
  bind (mul_by_int delta2 (__count a * __count b)) (fun p =>
  bind (truediv p count) (fun q =>
  inr (State count m1 (__m2 a + __m2 b + q)%float)))))).

End Binary64.

(** ** Running the methods *)

Lemma bind_run {A B} (m : M A) (k : A -> M B) (h : heap) :
  (m ≫= k) h =
  match m h with
  | Ret a h' => k a h'
  | Raise e h' => Raise e h'
  | Wrong => Wrong
  end.
Proof. reflexivity. Qed.

Lemma getattr_run {A} (f : state -> A) (l : loc) (h : heap) (s : state) :
  h !! l = Some s -> getattr f l h = Ret (f s) h.
Proof. intros H. unfold getattr, get. rewrite bind_run, H. reflexivity. Qed.

Lemma set_count_run (l : loc) (v : Z) (h : heap) (s : state) :
  h !! l = Some s ->
  set_count l v h = Ret tt (<[l := State v (__m1 s) (__m2 s)]> h).
Proof.
  intros H. unfold set_count, get, put. rewrite bind_run, H. cbn. rewrite H.
  reflexivity.
Qed.

Lemma set_m1_run (l : loc) (v : R) (h : heap) (s : state) :
  h !! l = Some s ->
  set_m1 l v h = Ret tt (<[l := State (__count s) v (__m2 s)]> h).
Proof.
  intros H. unfold set_m1, get, put. rewrite bind_run, H. cbn. rewrite H.
  reflexivity.
Qed.

Lemma set_m2_run (l : loc) (v : R) (h : heap) (s : state) :
  h !! l = Some s ->
  set_m2 l v h = Ret tt (<[l := State (__count s) (__m1 s) v]> h).
Proof.
  intros H. unfold set_m2, get, put. rewrite bind_run, H. cbn. rewrite H.
  reflexivity.
Qed.

Lemma lookup_assigned (h : heap) (l : loc) (s s' : state) :
  h !! l = Some s -> <[l := s']> h !! l = Some s'.
Proof.
  intros H. apply list_lookup_insert_eq. eapply lookup_lt_Some, H.
Qed.

Lemma lookup_new (h : heap) (s : state) : (h ++ [s]) !! length h = Some s.
Proof. apply list_lookup_middle. reflexivity. Qed.

Create HintDb heap.
#[local] Hint Resolve lookup_assigned lookup_new : heap.

Lemma Z_eqb_0_false (n : Z) : n <> 0 -> (n =? 0) = false.
Proof. intros. apply Z.eqb_neq. assumption. Qed.

(** One statement of a method body, run on a heap in which the object is
    known. *)
Ltac run_step :=
  rewrite bind_run;
  first
    [ erewrite getattr_run by eauto with heap
    | erewrite set_count_run by eauto with heap
    | erewrite set_m1_run by eauto with heap
    | erewrite set_m2_run by eauto with heap ];
  cbn [__count __m1 __m2].

(** A statement that touches no object. *)
Ltac run_pure := rewrite bind_run; cbn [sub_float mret M_ret ret raise].

Lemma add_num_run (self : loc) (x : R) (h : heap) (s : state) :
  h !! self = Some s ->
  Welford.add self (VNum x) h =
  if __count s + 1 =? 0
  then Raise ZeroDivisionError
         (<[self := State (__count s + 1) (__m1 s) (__m2 s)]> h)
  else Ret (VWelford self) (<[self := add_fields x s]> h).
Proof.
  intros H. unfold Welford.add.
  do 3 run_step. run_pure. do 2 run_step.
  rewrite bind_run. unfold truediv. destruct (__count s + 1 =? 0); [reflexivity|].
  cbn [mret M_ret ret]. do 3 run_step. run_pure. run_step.
  rewrite !list_insert_insert_eq. reflexivity.
Qed.

Lemma merge_run (self other : loc) (h : heap) (a b : state) :
  h !! self = Some a ->
  h !! other = Some b ->
  Welford.merge self other h =
  if __count a + __count b =? 0
  then Raise ZeroDivisionError h
  else Ret (VWelford self) (<[self := merge_fields a b]> h).
Proof.
  intros Ha Hb. unfold Welford.merge.
  do 8 run_step.
  rewrite bind_run. unfold truediv. destruct (__count a + __count b =? 0); [reflexivity|].
  cbn [mret M_ret ret]. do 4 run_step.
  rewrite bind_run. cbn [mret M_ret ret]. do 3 run_step.
  rewrite !list_insert_insert_eq. reflexivity.
Qed.

Lemma getattr_wrong {A} (f : state -> A) (l : loc) (h : heap) :
  h !! l = None -> getattr f l h = Wrong.
Proof. intros H. unfold getattr, get. rewrite bind_run, H. reflexivity. Qed.

Lemma merge_wrong_self (self other : loc) (h : heap) :
  h !! self = None -> Welford.merge self other h = Wrong.
Proof.
  intros H. unfold Welford.merge. rewrite bind_run, getattr_wrong by assumption. reflexivity.
Qed.

Lemma merge_wrong_other (self other : loc) (h : heap) :
  h !! other = None -> Welford.merge self other h = Wrong.
Proof.
  intros H. unfold Welford.merge.
  destruct (h !! self) as [a|] eqn:Ha; [|apply merge_wrong_self; assumption].
  run_step. rewrite bind_run, getattr_wrong by assumption. reflexivity.
Qed.

Lemma merge_returns (self other : loc) (h h' : heap) (v : pyval) :
  Welford.merge self other h = Ret v h' -> v = VWelford self.
Proof.
  destruct (h !! self) as [a|] eqn:Ha;
    [|rewrite merge_wrong_self by assumption; discriminate].
  destruct (h !! other) as [b|] eqn:Hb;
    [|rewrite merge_wrong_other by assumption; discriminate].
  rewrite (merge_run _ _ _ _ _ Ha Hb).
  destruct (_ =? 0); [discriminate|]. intros [= <- _]. reflexivity.
Qed.

Lemma add_welford_run (self other : loc) (h : heap) :
  Welford.add self (VWelford other) h = Welford.merge self other h.
Proof.
  unfold Welford.add. rewrite bind_run.
  destruct (Welford.merge self other h) as [v h'| |] eqn:E; try reflexivity.
  apply merge_returns in E. subst v. reflexivity.
Qed.

Lemma add_all_loop_nums (self : loc) (xs : list R) :
  forall (h : heap) (s : state),
  h !! self = Some s ->
  0 <= __count s ->
  Welford.add_all_loop self (map VNum xs) h =
  Ret tt (<[self := fold_fields xs s]> h).
Proof.
  induction xs as [|x xs IH]; intros h s Hs Hc.
  - cbn. rewrite list_insert_id by assumption. reflexivity.
  - cbn [map Welford.add_all_loop]. rewrite bind_run.
    rewrite (add_num_run _ _ _ _ Hs), Z_eqb_0_false by lia.
    rewrite (IH _ (add_fields x s)).
    + rewrite list_insert_insert_eq. reflexivity.
    + eapply lookup_assigned, Hs.
    + cbn. lia.
Qed.

Lemma add_all_nums (self : loc) (xs : list R) (h : heap) (s : state) :
  h !! self = Some s ->
  0 <= __count s ->
  Welford.add_all self (map VNum xs) h =
  Ret (VWelford self) (<[self := fold_fields xs s]> h).
Proof.
  intros Hs Hc. unfold Welford.add_all.
  rewrite bind_run, (add_all_loop_nums _ _ _ _ Hs Hc). reflexivity.
Qed.

Lemma Welford_run (data : pyval) (h : heap) :
  Welford.Welford data h =
  let self := length h in
  let h0 := h ++ [empty] in
  match data with
  | VNone => Ret self h0
  | VIter xs => (Welford.add_all self xs;; mret self) h0
  | _ => (Welford.add self data;; mret self) h0
  end.
Proof.
  unfold Welford.Welford. rewrite bind_run. unfold new.
  unfold Welford.__init__.
  rewrite bind_run. do 3 run_step.
  fold empty. rewrite !(list_insert_id _ _ _ (lookup_new h empty)).
  destruct data; cbn zeta; try reflexivity; rewrite !bind_run;
    match goal with |- context [match ?m with _ => _ end] =>
      destruct m; reflexivity end.
Qed.

(** The value of the two variance properties, from the fields. *)
Lemma var_run (self : loc) (h : heap) (s : state) :
  h !! self = Some s ->
  Welford.var self h =
  Ret (if __count s <? 2 then NaN
       else Fin (__m2 s / IZR (__count s - 1))) h.
Proof.
  intros H. unfold Welford.var. run_step.
  destruct (__count s <? 2) eqn:E; [reflexivity|].
  do 2 run_step. rewrite bind_run. unfold truediv.
  rewrite Z_eqb_0_false by (apply Z.ltb_ge in E; lia). reflexivity.
Qed.

Lemma varp_run (self : loc) (h : heap) (s : state) :
  h !! self = Some s ->
  Welford.varp self h =
  Ret (if __count s <? 2 then NaN
       else Fin (__m2 s / IZR (__count s))) h.
Proof.
  intros H. unfold Welford.varp. run_step.
  destruct (__count s <? 2) eqn:E; [reflexivity|].
  do 2 run_step. rewrite bind_run. unfold truediv.
  rewrite Z_eqb_0_false by (apply Z.ltb_ge in E; lia). reflexivity.
Qed.

Lemma count_run (self : loc) (h : heap) (s : state) :
  h !! self = Some s -> Welford.count self h = Ret (__count s) h.
Proof. apply getattr_run. Qed.

Lemma mean_run (self : loc) (h : heap) (s : state) :
  h !! self = Some s -> Welford.mean self h = Ret (__m1 s) h.
Proof. apply getattr_run. Qed.

(** ** The algebra of the recurrences *)

Lemma summarises_empty : summarises 0 0 0 empty.
Proof. unfold summarises, empty; cbn. repeat split; lra. Qed.

Lemma summarises_add (n : Z) (t q x : R) (s : state) :
  0 <= n ->
  summarises n t q s ->
  summarises (n + 1) (t + x) (q + x * x) (add_fields x s).
Proof.
  intros Hn (Hc & Ht & Hq). unfold summarises, add_fields. cbn.
  rewrite Hc, Hq, <- Ht.
  assert (IZR (n + 1) <> 0%R) by (apply not_0_IZR; lia).
  rewrite plus_IZR in *.
  repeat split; field; assumption.
Qed.

Lemma summarises_fold (xs : list R) :
  forall (n : Z) (t q : R) (s : state),
  0 <= n ->
  summarises n t q s ->
  summarises (n + Z.of_nat (length xs)) (t + total xs)
    (q + total (map (fun x => x * x)%R xs)) (fold_fields xs s).
Proof.
  induction xs as [|x xs IH]; intros n t q s Hn Hs.
  - cbn. rewrite Z.add_0_r, !Rplus_0_r. assumption.
  - cbn [fold_fields fold_left length total map fold_right].
    apply (summarises_add _ _ _ x) in Hs; [|assumption].
    apply IH in Hs; [|lia]. fold (fold_fields xs (add_fields x s)).
    replace (n + Z.of_nat (S (length xs))) with (n + 1 + Z.of_nat (length xs))
      by lia.
    unfold total in *.
    replace (t + (x + fold_right Rplus 0 xs))%R
      with (t + x + fold_right Rplus 0 xs)%R by ring.
    replace (q + (x * x + fold_right Rplus 0 (map (fun x => x * x) xs)))%R
      with (q + x * x + fold_right Rplus 0 (map (fun x => x * x) xs))%R by ring.
    assumption.
Qed.

Lemma summarises_merge (na nb : Z) (ta tb qa qb : R) (a b : state) :
  na + nb <> 0 ->
  summarises na ta qa a ->
  summarises nb tb qb b ->
  summarises (na + nb) (ta + tb) (qa + qb) (merge_fields a b).
Proof.
  intros Hn (Hca & Hta & Hqa) (Hcb & Htb & Hqb).
  unfold summarises, merge_fields. cbn.
  rewrite Hca, Hcb, Hqa, Hqb, <- Hta, <- Htb.
  assert (IZR (na + nb) <> 0%R) by (apply not_0_IZR; assumption).
  rewrite mult_IZR. rewrite plus_IZR in *.
  repeat split; field; assumption.
Qed.

Lemma summarises_unique (n : Z) (t q : R) (s s' : state) :
  n <> 0 ->
  summarises n t q s ->
  summarises n t q s' ->
  s = s'.
Proof.
  intros Hn (Hc & Ht & Hq) (Hc' & Ht' & Hq').
  destruct s as [c m1 m2], s' as [c' m1' m2']. cbn in *.
  assert (IZR n <> 0%R) by (apply not_0_IZR; assumption).
  assert (m1 = m1') by (apply (Rmult_eq_reg_r (IZR n)); congruence).
  subst. reflexivity.
Qed.

Lemma same_stats_same_fields (l l' : loc) (h h' : heap) (s : state) :
  h !! l = Some s -> h' !! l' = Some s -> same_stats l h l' h'.
Proof.
  intros H H'. unfold same_stats. do 3 eexists.
  rewrite (count_run _ _ _ H), (count_run _ _ _ H'),
    (mean_run _ _ _ H), (mean_run _ _ _ H'),
    (var_run _ _ _ H), (var_run _ _ _ H').
  repeat split; reflexivity.
Qed.

(** Squared deviations from any centre [c], by sums and sums of squares. *)
Lemma total_sq_dev (c : R) (xs : list R) :
  total (map (fun x => (x - c) * (x - c))%R xs) =
  (total (map (fun x => x * x) xs) - 2 * c * total xs
   + INR (length xs) * c * c)%R.
Proof.
  induction xs as [|x xs IH].
  - cbn. ring.
  - cbn [map total fold_right length]. fold (total xs) in *.
    fold (total (map (fun x => (x - c) * (x - c))%R xs)).
    fold (total (map (fun x => x * x)%R xs)).
    rewrite IH, S_INR. ring.
Qed.

Lemma summarises_two_pass (xs : list R) (s : state) :
  (2 <= length xs)%nat ->
  summarises (Z.of_nat (length xs)) (total xs)
    (total (map (fun x => x * x)%R xs)) s ->
  (__m2 s / IZR (__count s - 1))%R = two_pass_var xs.
Proof.
  intros Hlen (Hc & Ht & Hq). unfold two_pass_var, two_pass_mean.
  rewrite total_sq_dev, Hc, minus_IZR, <- INR_IZR_INZ, Hq.
  rewrite <- INR_IZR_INZ in Ht.
  assert (2 <= INR (length xs))%R by (apply (le_INR 2); assumption).
  rewrite <- Ht. field. lra.
Qed.

Lemma Rdiv_nonneg (x y : R) : (0 <= x -> 0 < y -> 0 <= x / y)%R.
Proof. intros. apply Rle_mult_inv_pos; assumption. Qed.

Lemma valid_empty : valid empty.
Proof. unfold valid, empty; cbn. split; [lia | lra]. Qed.

Lemma valid_add_fields (x : R) (s : state) :
  valid s -> valid (add_fields x s).
Proof.
  intros [Hc Hm]. unfold valid, add_fields. cbn. split; [lia|].
  assert (0 <= IZR (__count s))%R by (apply IZR_le; assumption).
  rewrite plus_IZR.
  replace (x - (__m1 s + (x - __m1 s) / (IZR (__count s) + 1)))%R
    with ((x - __m1 s) * (IZR (__count s) / (IZR (__count s) + 1)))%R
    by (field; lra).
  assert (0 <= IZR (__count s) / (IZR (__count s) + 1))%R
    by (apply Rdiv_nonneg; lra).
  assert (0 <= (x - __m1 s) * (x - __m1 s))%R by apply Rle_0_sqr.
  nra.
Qed.

Lemma valid_merge_fields (a b : state) :
  __count a + __count b <> 0 ->
  valid a -> valid b -> valid (merge_fields a b).
Proof.
  intros Hn [Hca Hma] [Hcb Hmb]. unfold valid, merge_fields. cbn.
  split; [lia|].
  assert (0 <= IZR (__count a * __count b))%R by (apply IZR_le; nia).
  assert (0 < IZR (__count a + __count b))%R by (apply IZR_lt; lia).
  assert (0 <= (__m1 a - __m1 b) * (__m1 a - __m1 b))%R by apply Rle_0_sqr.
  assert (0 <= (__m1 a - __m1 b) * (__m1 a - __m1 b)
               * IZR (__count a * __count b)
               / IZR (__count a + __count b))%R.
  { apply Rdiv_nonneg; [|assumption]. apply Rmult_le_pos; assumption. }
  lra.
Qed.

Lemma valid_fold_fields (xs : list R) :
  forall s : state, valid s -> valid (fold_fields xs s).
Proof.
  induction xs as [|x xs IH]; intros s Hs; [assumption|].
  cbn. apply IH, valid_add_fields, Hs.
Qed.

(** ** The update rule *)

(** C1.  For every accumulator state [(n, mean, m2)] and every number [x],
    [add(x)] returns the accumulator itself and leaves a heap that differs
    from the old one in that object only, whose fields are now
    [n' = n + 1], [mean' = mean + delta / n'] and
    [m2' = m2 + delta * (x - mean')], with [delta = x - mean] taken from
    the old mean. *)
Theorem add_is_welford_recurrence
    (h : heap) (self : loc) (n : Z) (mean m2 x : R) :
  h !! self = Some (State n mean m2) ->
  0 <= n ->
  let n' := n + 1 in
  let delta := (x - mean)%R in
  let mean' := (mean + delta / IZR n')%R in
  let m2' := (m2 + delta * (x - mean'))%R in
  Welford.add self (VNum x) h =
  Ret (VWelford self) (<[self := State n' mean' m2']> h).
Proof.
  intros Hs Hn n' delta mean' m2'.
  rewrite (add_num_run _ _ _ _ Hs). cbn [__count].
  rewrite Z_eqb_0_false by lia. reflexivity.
Qed.

Lemma add_is_welford_recurrence_witness :
  Welford.add 0%nat (VNum 6) [State 2 3 2] =
  Ret (VWelford 0%nat)
    (<[0%nat := State (2 + 1) (3 + (6 - 3) / IZR (2 + 1))
                 (2 + (6 - 3) * (6 - (3 + (6 - 3) / IZR (2 + 1))))]>
       [State 2 3 2]).
Proof.
  apply (add_is_welford_recurrence [State 2 3 2] 0%nat 2 3 2 6);
    [reflexivity | lia].
Defined.

(** ** The combination rule *)

(** C2.  For accumulators [self = (n_a, mean_a, m2_a)] and
    [other = (n_b, mean_b, m2_b)] with [n_a + n_b >= 1] (the two may be the
    same object), [merge(other)] returns [self] and sets its fields to
    [n = n_a + n_b], [(n_a * mean_a + n_b * mean_b) / n] and
    [m2_a + m2_b + (mean_a - mean_b)^2 * (n_a * n_b) / n]. *)
Theorem merge_is_pairwise_combination
    (h : heap) (self other : loc) (n_a n_b : Z) (mean_a mean_b m2_a m2_b : R) :
  h !! self = Some (State n_a mean_a m2_a) ->
  h !! other = Some (State n_b mean_b m2_b) ->
  1 <= n_a + n_b ->
  let n := n_a + n_b in
  Welford.merge self other h =
  Ret (VWelford self)
    (<[self := State n
                 ((IZR n_a * mean_a + IZR n_b * mean_b) / IZR n)
                 (m2_a + m2_b
                  + (mean_a - mean_b) ^ 2 * (IZR n_a * IZR n_b) / IZR n)]> h).
Proof.
  intros Ha Hb Hn n.
  rewrite (merge_run _ _ _ _ _ Ha Hb). cbn [__count].
  rewrite Z_eqb_0_false by lia.
  unfold merge_fields. cbn [__count __m1 __m2]. fold n.
  rewrite mult_IZR.
  replace ((mean_a - mean_b) * (mean_a - mean_b))%R
    with ((mean_a - mean_b) ^ 2)%R by ring.
  reflexivity.
Qed.

Lemma merge_is_pairwise_combination_witness :
  Welford.merge 0%nat 1%nat [State 2 3 2; State 1 6 0] =
  Ret (VWelford 0%nat)
    (<[0%nat := State (2 + 1)
                 ((IZR 2 * 3 + IZR 1 * 6) / IZR (2 + 1))
                 (2 + 0 + (3 - 6) ^ 2 * (IZR 2 * IZR 1) / IZR (2 + 1))]>
       [State 2 3 2; State 1 6 0]).
Proof.
  apply (merge_is_pairwise_combination
           [State 2 3 2; State 1 6 0] 0%nat 1%nat 2 1 3 6 2 0);
    [reflexivity | reflexivity | lia].
Defined.

(** ** One observation *)

Lemma assign_new (h : heap) (s s' : state) :
  <[length h := s']> (h ++ [s]) = h ++ [s'].
Proof.
  rewrite insert_app_r_alt by reflexivity. rewrite Nat.sub_diag. reflexivity.
Qed.

Lemma add_fields_empty (x : R) : add_fields x empty = State 1 x 0.
Proof.
  unfold add_fields, empty. cbn [__count __m1 __m2].
  change (0 + 1) with 1. f_equal; field.
Qed.

Lemma Welford_num_run (x : R) (h : heap) :
  Welford.Welford (VNum x) h = Ret (length h) (h ++ [State 1 x 0]).
Proof.
  rewrite Welford_run. cbn zeta. rewrite bind_run.
  rewrite (add_num_run _ _ _ _ (lookup_new h empty)).
  rewrite Z_eqb_0_false by (cbn; lia).
  rewrite assign_new, add_fields_empty. reflexivity.
Qed.

(** C3.  What the code does with one observation: after [Welford(x)] the
    new accumulator has count 1, mean [x] and [m2 = 0]; [var] and [std]
    are not-a-number; and [varp] and [stdp] are not-a-number as well, not
    0, because [varp] tests [count < 2] like [var] does. *)
Theorem single_observation_queries (h : heap) (x : R) :
  exists (w : loc) (h' : heap),
    Welford.Welford (VNum x) h = Ret w h' /\
    Welford.acc w h' = Ret (1, x, 0%R) h' /\
    Welford.count w h' = Ret 1 h' /\
    Welford.mean w h' = Ret x h' /\
    Welford.var w h' = Ret NaN h' /\
    Welford.std w h' = Ret NaN h' /\
    Welford.varp w h' = Ret NaN h' /\
    Welford.stdp w h' = Ret NaN h'.
Proof.
  exists (length h), (h ++ [State 1 x 0]).
  pose proof (lookup_new h (State 1 x 0)) as Hw.
  split; [apply Welford_num_run|].
  split; [unfold Welford.acc; do 3 run_step; reflexivity|].
  split; [apply (count_run _ _ _ Hw)|].
  split; [apply (mean_run _ _ _ Hw)|].
  split; [apply (var_run _ _ _ Hw)|].
  split; [unfold Welford.std; rewrite bind_run, (var_run _ _ _ Hw);
          reflexivity|].
  split; [apply (varp_run _ _ _ Hw)|].
  unfold Welford.stdp; rewrite bind_run, (varp_run _ _ _ Hw); reflexivity.
Qed.

(** ** Agreement with the two-pass variance *)

Lemma fold_fields_summarises (xs : list R) :
  summarises (Z.of_nat (length xs)) (total xs)
    (total (map (fun x => x * x)%R xs)) (fold_fields xs empty).
Proof.
  pose proof (summarises_fold xs 0 0 0 empty (Z.le_refl 0) summarises_empty)
    as H.
  rewrite Z.add_0_l, !Rplus_0_l in H. exact H.
Qed.

Lemma fold_fields_count (xs : list R) :
  __count (fold_fields xs empty) = Z.of_nat (length xs).
Proof. apply fold_fields_summarises. Qed.

(** C4.  For every list [xs] of at least two numbers, after the calls
    [add(x)] for each [x] of [xs] in order on an empty accumulator, [var]
    is the two-pass sample variance of [xs]. *)
Theorem var_is_two_pass_variance (h : heap) (self : loc) (xs : list R) :
  h !! self = Some empty ->
  (2 <= length xs)%nat ->
  exists h' : heap,
    Welford.add_all_loop self (map VNum xs) h = Ret tt h' /\
    Welford.var self h' = Ret (Fin (two_pass_var xs)) h'.
Proof.
  intros Hs Hlen. eexists. split.
  - apply (add_all_loop_nums _ _ _ _ Hs). cbn. lia.
  - rewrite (var_run _ _ (fold_fields xs empty)) by (eapply lookup_assigned, Hs).
    rewrite fold_fields_count at 1.
    destruct (Z.ltb_spec (Z.of_nat (length xs)) 2) as [Hlt|_]; [lia|].
    rewrite (summarises_two_pass xs) by
      (try assumption; apply fold_fields_summarises).
    reflexivity.
Qed.

Lemma var_is_two_pass_variance_witness :
  exists h' : heap,
    Welford.add_all_loop 0%nat (map VNum [2; 4; 9]%R) [empty] = Ret tt h' /\
    Welford.var 0%nat h' = Ret (Fin (two_pass_var [2; 4; 9]%R)) h'.
Proof.
  apply (var_is_two_pass_variance [empty] 0%nat [2; 4; 9]%R);
    [reflexivity | cbn; lia].
Defined.

(** ** Merging the accumulators of two sublists *)

Lemma total_app (xs ys : list R) : total (xs ++ ys) = (total xs + total ys)%R.
Proof.
  unfold total. induction xs as [|x xs IH]; cbn [app fold_right].
  - ring.
  - rewrite IH. ring.
Qed.

(** A list [zs] that has the numbers of [xs] and [ys] together, as far as
    length, sum and sum of squares go. *)
Lemma merge_fold_fields (xs ys zs : list R) :
  zs <> [] ->
  length zs = (length xs + length ys)%nat ->
  total zs = (total xs + total ys)%R ->
  total (map (fun x => x * x)%R zs) =
    (total (map (fun x => x * x) xs) + total (map (fun x => x * x) ys))%R ->
  merge_fields (fold_fields xs empty) (fold_fields ys empty) =
  fold_fields zs empty.
Proof.
  intros Hne Hlen Ht Hq.
  assert (Z.of_nat (length zs) <> 0) by (destruct zs; [congruence | cbn; lia]).
  apply (summarises_unique (Z.of_nat (length zs)) (total zs)
           (total (map (fun x => x * x)%R zs))); [assumption| |].
  - rewrite Hlen, Nat2Z.inj_add, Ht, Hq.
    apply summarises_merge; [lia | |]; apply fold_fields_summarises.
  - apply fold_fields_summarises.
Qed.

Lemma merge_fold_fields_app (xs ys : list R) :
  xs ++ ys <> [] ->
  merge_fields (fold_fields xs empty) (fold_fields ys empty) =
  fold_fields (xs ++ ys) empty.
Proof.
  intros Hne. apply merge_fold_fields; [assumption | | |].
  - apply length_app.
  - apply total_app.
  - rewrite map_app. apply total_app.
Qed.

Lemma merge_fold_fields_app_swap (xs ys : list R) :
  xs ++ ys <> [] ->
  merge_fields (fold_fields ys empty) (fold_fields xs empty) =
  fold_fields (xs ++ ys) empty.
Proof.
  intros Hne. apply merge_fold_fields; [assumption | | |].
  - rewrite length_app. lia.
  - rewrite total_app. ring.
  - rewrite map_app, total_app. ring.
Qed.

(** Two empty accumulators take one list each, then the first absorbs the
    second. *)
Lemma split_merge_run (h : heap) (x y : loc) (xs ys : list R) :
  x <> y ->
  h !! x = Some empty ->
  h !! y = Some empty ->
  xs ++ ys <> [] ->
  (Welford.add_all x (map VNum xs);;
   Welford.add_all y (map VNum ys);;
   Welford.merge x y) h =
  Ret (VWelford x)
    (<[x := merge_fields (fold_fields xs empty) (fold_fields ys empty)]>
       (<[y := fold_fields ys empty]> h)).
Proof.
  intros Hxy Hx Hy Hne.
  rewrite bind_run, (add_all_nums _ _ _ _ Hx) by (cbn; lia).
  assert (<[x := fold_fields xs empty]> h !! y = Some empty) as Hy1
    by (rewrite list_lookup_insert_ne; assumption).
  rewrite bind_run, (add_all_nums _ _ _ _ Hy1) by (cbn; lia).
  erewrite merge_run.
  2: { rewrite list_lookup_insert_ne by congruence.
       eapply lookup_assigned, Hx. }
  2: { eapply lookup_assigned, Hy1. }
  rewrite !fold_fields_count, Z_eqb_0_false.
  - rewrite (list_insert_insert_ne _ y x) by congruence.
    rewrite list_insert_insert_eq. reflexivity.
  - destruct xs, ys; cbn in *; try lia. congruence.
Qed.

(** C5.  For every non-empty list and every split of it into [xs ++ ys]:
    when an empty accumulator [x] takes [xs], another empty accumulator
    [y] takes [ys], and [x.merge(y)] is called, then [count], [mean] and
    [var] of [x] are those of an empty accumulator [w] that took the whole
    list; and the same holds when [x] takes [ys] and [y] takes [xs]. *)
Theorem merge_of_split_is_whole (h : heap) (x y w : loc) (xs ys : list R) :
  x <> y ->
  h !! x = Some empty ->
  h !! y = Some empty ->
  h !! w = Some empty ->
  xs ++ ys <> [] ->
  exists h_split h_swap h_whole : heap,
    (Welford.add_all x (map VNum xs);;
     Welford.add_all y (map VNum ys);;
     Welford.merge x y) h = Ret (VWelford x) h_split /\
    (Welford.add_all x (map VNum ys);;
     Welford.add_all y (map VNum xs);;
     Welford.merge x y) h = Ret (VWelford x) h_swap /\
    Welford.add_all w (map VNum (xs ++ ys)) h = Ret (VWelford w) h_whole /\
    same_stats x h_split w h_whole /\
    same_stats x h_swap w h_whole.
Proof.
  intros Hxy Hx Hy Hw Hne.
  assert (ys ++ xs <> []) as Hne' by (destruct xs, ys; cbn in *; congruence).
  assert (y < length h)%nat as Hly by (eapply lookup_lt_Some, Hy).
  assert (x < length h)%nat as Hlx by (eapply lookup_lt_Some, Hx).
  do 3 eexists.
  split; [apply split_merge_run; assumption|].
  split; [apply split_merge_run; assumption|].
  split; [apply (add_all_nums _ _ _ _ Hw); cbn; lia|].
  split.
  - apply (same_stats_same_fields _ _ _ _ (fold_fields (xs ++ ys) empty)).
    + rewrite merge_fold_fields_app by assumption.
      apply list_lookup_insert_eq. rewrite length_insert. assumption.
    + eapply lookup_assigned, Hw.
  - apply (same_stats_same_fields _ _ _ _ (fold_fields (xs ++ ys) empty)).
    + rewrite merge_fold_fields_app_swap by assumption.
      apply list_lookup_insert_eq. rewrite length_insert. assumption.
    + eapply lookup_assigned, Hw.
Qed.

Lemma merge_of_split_is_whole_witness :
  exists h_split h_swap h_whole : heap,
    (Welford.add_all 0%nat (map VNum [2; 4]%R);;
     Welford.add_all 1%nat (map VNum [9]%R);;
     Welford.merge 0%nat 1%nat) [empty; empty; empty]
      = Ret (VWelford 0%nat) h_split /\
    (Welford.add_all 0%nat (map VNum [9]%R);;
     Welford.add_all 1%nat (map VNum [2; 4]%R);;
     Welford.merge 0%nat 1%nat) [empty; empty; empty]
      = Ret (VWelford 0%nat) h_swap /\
    Welford.add_all 2%nat (map VNum ([2; 4] ++ [9])%R) [empty; empty; empty]
      = Ret (VWelford 2%nat) h_whole /\
    same_stats 0%nat h_split 2%nat h_whole /\
    same_stats 0%nat h_swap 2%nat h_whole.
Proof.
  apply (merge_of_split_is_whole [empty; empty; empty] 0%nat 1%nat 2%nat
           [2; 4]%R [9]%R);
    [discriminate | reflexivity | reflexivity | reflexivity | discriminate].
Defined.

(** ** The empty accumulator and merge *)

Lemma merge_fields_empty_r (a : state) :
  __count a <> 0 -> merge_fields a empty = a.
Proof.
  intros Hc. destruct a as [c m1 m2]. unfold merge_fields, empty.
  cbn [__count __m1 __m2] in *.
  assert (IZR c <> 0%R) by (apply not_0_IZR; assumption).
  rewrite Z.add_0_r, Z.mul_0_r. f_equal; field; assumption.
Qed.

Lemma merge_fields_empty_l (a : state) :
  __count a <> 0 -> merge_fields empty a = a.
Proof.
  intros Hc. destruct a as [c m1 m2]. unfold merge_fields, empty.
  cbn [__count __m1 __m2] in *.
  assert (IZR c <> 0%R) by (apply not_0_IZR; assumption).
  rewrite Z.add_0_l, Z.mul_0_l. f_equal; field; assumption.
Qed.

(** C6, counterexample.  In binary64 [Welford([0.1, 0.1, 0.1])] has the
    fields [(3, 0.1, 0.0)].  Merged with [Welford()], in either argument
    position, the receiver has mean [0.10000000000000002], which is not
    [0.1]: the product [3 * 0.1] is rounded before it is divided by 3. *)
Lemma merge_with_empty_rounds_mean :
  Binary64.add_all
    [0x1.999999999999ap-4; 0x1.999999999999ap-4; 0x1.999999999999ap-4]%float
    Binary64.empty
    = inr (Binary64.State 3 0x1.999999999999ap-4 0) /\
  Binary64.merge (Binary64.State 3 0x1.999999999999ap-4 0) Binary64.empty
    = inr (Binary64.State 3 0x1.999999999999bp-4 0) /\
  Binary64.merge Binary64.empty (Binary64.State 3 0x1.999999999999ap-4 0)
    = inr (Binary64.State 3 0x1.999999999999bp-4 0) /\
  (0x1.999999999999bp-4 =? 0x1.999999999999ap-4)%float = false.
Proof. repeat split; vm_compute; reflexivity. Qed.

(** C6, over exact arithmetic (no rounding, no overflow).  Let [e] be a
    freshly constructed accumulator [(0, 0.0, 0.0)] and [x] an
    accumulator with fields [a] and count at least 1.  Then [x.merge(e)]
    returns [x] and leaves the heap as it was, so [count], [mean] and
    [var] of [x] are unchanged; and [e.merge(x)] returns [e], whose
    fields, and so whose [count], [mean] and [var], are then those of
    [x]. *)
Theorem empty_is_identity_for_merge (h : heap) (x e : loc) (a : state) :
  h !! x = Some a ->
  h !! e = Some empty ->
  1 <= __count a ->
  (exists h1 : heap,
     Welford.merge x e h = Ret (VWelford x) h1 /\
     h1 = h /\
     same_stats x h1 x h) /\
  (exists h2 : heap,
     Welford.merge e x h = Ret (VWelford e) h2 /\
     h2 !! e = Some a /\
     same_stats e h2 x h).
Proof.
  intros Hx He Hc. split.
  - exists h. split; [|split].
    + rewrite (merge_run _ _ _ _ _ Hx He). cbn [__count empty].
      rewrite Z_eqb_0_false by lia.
      rewrite merge_fields_empty_r by lia.
      rewrite list_insert_id by assumption. reflexivity.
    + reflexivity.
    + apply (same_stats_same_fields _ _ _ _ a); assumption.
  - eexists. split; [|split].
    + rewrite (merge_run _ _ _ _ _ He Hx). cbn [__count empty].
      rewrite Z_eqb_0_false by lia.
      rewrite merge_fields_empty_l by lia. reflexivity.
    + eapply lookup_assigned, He.
    + apply (same_stats_same_fields _ _ _ _ a); [|assumption].
      eapply lookup_assigned, He.
Qed.

Lemma empty_is_identity_for_merge_witness :
  (exists h1 : heap,
     Welford.merge 0%nat 1%nat [State 2 3 2; empty] = Ret (VWelford 0%nat) h1 /\
     h1 = [State 2 3 2; empty] /\
     same_stats 0%nat h1 0%nat [State 2 3 2; empty]) /\
  (exists h2 : heap,
     Welford.merge 1%nat 0%nat [State 2 3 2; empty] = Ret (VWelford 1%nat) h2 /\
     h2 !! 1%nat = Some (State 2 3 2) /\
     same_stats 1%nat h2 0%nat [State 2 3 2; empty]).
Proof.
  apply (empty_is_identity_for_merge [State 2 3 2; empty] 0%nat 1%nat
           (State 2 3 2)); [reflexivity | reflexivity | cbn; lia].
Defined.

(** ** Exceptions *)

Lemma Welford_None_run (h : heap) :
  Welford.Welford VNone h = Ret (length h) (h ++ [empty]).
Proof. apply Welford_run. Qed.

(** C7, counterexample.  [Welford().merge(Welford())] raises
    [ZeroDivisionError]; it does not return a not-a-number. *)
Lemma merge_of_two_empty_raises :
  (x ← Welford.Welford VNone;
   y ← Welford.Welford VNone;
   Welford.merge x y) [] = Raise ZeroDivisionError [empty; empty].
Proof.
  rewrite bind_run, Welford_None_run. cbn [length app].
  rewrite bind_run, Welford_None_run. cbn [length app].
  rewrite (merge_run 0%nat 1%nat [empty; empty] empty empty);
    reflexivity.
Qed.

Lemma math_sqrt_nonneg (r : R) (h : heap) :
  (0 <= r)%R -> math_sqrt (Fin r) h = Ret (Fin (sqrt r)) h.
Proof.
  intros Hr. unfold math_sqrt. destruct (Rlt_dec r 0) as [Hlt|_]; [lra|].
  reflexivity.
Qed.

Lemma std_run (self : loc) (h : heap) (s : state) :
  h !! self = Some s ->
  valid s ->
  Welford.std self h =
  Ret (if __count s <? 2 then NaN
       else Fin (sqrt (__m2 s / IZR (__count s - 1)))) h.
Proof.
  intros H [Hc Hm]. unfold Welford.std.
  rewrite bind_run, (var_run _ _ _ H).
  destruct (Z.ltb_spec (__count s) 2) as [Hlt|Hge]; [reflexivity|].
  apply math_sqrt_nonneg, Rdiv_nonneg; [assumption|].
  apply IZR_lt. lia.
Qed.

Lemma stdp_run (self : loc) (h : heap) (s : state) :
  h !! self = Some s ->
  valid s ->
  Welford.stdp self h =
  Ret (if __count s <? 2 then NaN
       else Fin (sqrt (__m2 s / IZR (__count s)))) h.
Proof.
  intros H [Hc Hm]. unfold Welford.stdp.
  rewrite bind_run, (varp_run _ _ _ H).
  destruct (Z.ltb_spec (__count s) 2) as [Hlt|Hge]; [reflexivity|].
  apply math_sqrt_nonneg, Rdiv_nonneg; [assumption|].
  apply IZR_lt. lia.
Qed.

Lemma acc_run (self : loc) (h : heap) (s : state) :
  h !! self = Some s ->
  Welford.acc self h = Ret (__count s, __m1 s, __m2 s) h.
Proof. intros H. unfold Welford.acc. do 3 run_step. reflexivity. Qed.

Lemma ltb_2_true (c : Z) : c < 2 -> (c <? 2) = true.
Proof. intros. apply Z.ltb_lt. assumption. Qed.

(** C7, as the code has it.  Let [x] and [y] be accumulators that satisfy
    the data-model invariant.  Then [add] and [add_all] of numbers return
    [x]; every read-only property returns and leaves the heap as it was,
    [var] and [std] being not-a-number at count < 2 and [varp] and [stdp]
    at count < 1; and [x.merge(y)], like [x.add(y)], returns [x] when the
    combined count is at least 1, and raises [ZeroDivisionError], with no
    field assigned, when it is 0. *)
Theorem raises_only_on_empty_merge (h : heap) (x y : loc) (a b : state) :
  h !! x = Some a ->
  h !! y = Some b ->
  valid a ->
  valid b ->
  (forall v : R, exists h', Welford.add x (VNum v) h = Ret (VWelford x) h') /\
  (forall vs : list R,
     exists h', Welford.add_all x (map VNum vs) h = Ret (VWelford x) h') /\
  (1 <= __count a + __count b ->
     exists h', Welford.merge x y h = Ret (VWelford x) h' /\
                Welford.add x (VWelford y) h = Ret (VWelford x) h') /\
  (__count a + __count b = 0 ->
     Welford.merge x y h = Raise ZeroDivisionError h /\
     Welford.add x (VWelford y) h = Raise ZeroDivisionError h) /\
  (exists t, Welford.acc x h = Ret t h) /\
  (exists c, Welford.count x h = Ret c h) /\
  (exists m, Welford.mean x h = Ret m h) /\
  (exists v, Welford.var x h = Ret v h /\ (__count a < 2 -> v = NaN)) /\
  (exists v, Welford.std x h = Ret v h /\ (__count a < 2 -> v = NaN)) /\
  (exists v, Welford.varp x h = Ret v h /\ (__count a < 1 -> v = NaN)) /\
  (exists v, Welford.stdp x h = Ret v h /\ (__count a < 1 -> v = NaN)).
Proof.
  intros Hx Hy Ha Hb. pose proof Ha as [Hca _].
  repeat apply conj.
  - intros v. eexists. rewrite (add_num_run _ _ _ _ Hx).
    rewrite Z_eqb_0_false by lia. reflexivity.
  - intros vs. eexists. apply (add_all_nums _ _ _ _ Hx). assumption.
  - intros Hn. eexists. rewrite add_welford_run.
    rewrite (merge_run _ _ _ _ _ Hx Hy), Z_eqb_0_false by lia.
    split; reflexivity.
  - intros Hn. rewrite add_welford_run.
    rewrite (merge_run _ _ _ _ _ Hx Hy), Hn. split; reflexivity.
  - eexists. apply (acc_run _ _ _ Hx).
  - eexists. apply (count_run _ _ _ Hx).
  - eexists. apply (mean_run _ _ _ Hx).
  - eexists. split; [apply (var_run _ _ _ Hx)|].
    intros Hlt. rewrite ltb_2_true by lia. reflexivity.
  - eexists. split; [apply (std_run _ _ _ Hx Ha)|].
    intros Hlt. rewrite ltb_2_true by lia. reflexivity.
  - eexists. split; [apply (varp_run _ _ _ Hx)|].
    intros Hlt. rewrite ltb_2_true by lia. reflexivity.
  - eexists. split; [apply (stdp_run _ _ _ Hx Ha)|].
    intros Hlt. rewrite ltb_2_true by lia. reflexivity.
Qed.

Lemma valid_example : valid (State 2 3 2).
Proof. unfold valid. cbn. split; [lia | lra]. Qed.

Lemma raises_only_on_empty_merge_witness :
  let h := [State 2 3 2; empty] in
  let x := 0%nat in
  let y := 1%nat in
  let a := State 2 3 2 in
  let b := empty in
  (forall v : R, exists h', Welford.add x (VNum v) h = Ret (VWelford x) h') /\
  (forall vs : list R,
     exists h', Welford.add_all x (map VNum vs) h = Ret (VWelford x) h') /\
  (1 <= __count a + __count b ->
     exists h', Welford.merge x y h = Ret (VWelford x) h' /\
                Welford.add x (VWelford y) h = Ret (VWelford x) h') /\
  (__count a + __count b = 0 ->
     Welford.merge x y h = Raise ZeroDivisionError h /\
     Welford.add x (VWelford y) h = Raise ZeroDivisionError h) /\
  (exists t, Welford.acc x h = Ret t h) /\
  (exists c, Welford.count x h = Ret c h) /\
  (exists m, Welford.mean x h = Ret m h) /\
  (exists v, Welford.var x h = Ret v h /\ (__count a < 2 -> v = NaN)) /\
  (exists v, Welford.std x h = Ret v h /\ (__count a < 2 -> v = NaN)) /\
  (exists v, Welford.varp x h = Ret v h /\ (__count a < 1 -> v = NaN)) /\
  (exists v, Welford.stdp x h = Ret v h /\ (__count a < 1 -> v = NaN)).
Proof.
  intros h x y a b.
  apply (raises_only_on_empty_merge h x y a b);
    [reflexivity | reflexivity | apply valid_example | apply valid_empty].
Defined.

(** ** What merge changes *)

(** C8, counterexample.  With [x = Welford(1)], the receiver and the
    argument of [x.merge(x)] are one object: its count is 1 before the
    call and 2 after it. *)
Lemma self_merge_changes_argument :
  (x ← Welford.Welford (VNum 1); Welford.count x) []
    = Ret 1 [State 1 1 0] /\
  (x ← Welford.Welford (VNum 1); Welford.merge x x;; Welford.count x) []
    = Ret 2 [State 2 1 0].
Proof.
  split.
  - rewrite bind_run, Welford_num_run. reflexivity.
  - rewrite bind_run, Welford_num_run. cbn [length app].
    rewrite bind_run.
    rewrite (merge_run 0%nat 0%nat [State 1 1 0] (State 1 1 0) (State 1 1 0))
      by reflexivity.
    cbn [__count Z.add Z.eqb Pos.add].
    replace (merge_fields (State 1 1 0) (State 1 1 0)) with (State 2 1 0).
    + reflexivity.
    + unfold merge_fields. cbn [__count __m1 __m2].
      change (1 + 1) with 2. change (1 * 1) with 1. f_equal; field.
Qed.

(** C8, as the code has it.  For two distinct accumulators [x] and [y],
    whether [x.merge(y)] returns or raises, the fields of [y], and so its
    [count], [mean] and [var], are afterwards what they were before, and
    so is every object other than [x]. *)
Theorem merge_leaves_other_unchanged (h : heap) (x y : loc) (a b : state) :
  x <> y ->
  h !! x = Some a ->
  h !! y = Some b ->
  exists h' : heap,
    Welford.merge x y h =
      (if __count a + __count b =? 0 then Raise ZeroDivisionError h'
       else Ret (VWelford x) h') /\
    h' !! y = Some b /\
    same_stats y h' y h /\
    forall l : loc, l <> x -> h' !! l = h !! l.
Proof.
  intros Hxy Hx Hy. rewrite (merge_run _ _ _ _ _ Hx Hy).
  destruct (__count a + __count b =? 0).
  - exists h. split; [reflexivity|]. split; [assumption|].
    split; [apply (same_stats_same_fields _ _ _ _ b); assumption|].
    reflexivity.
  - eexists. split; [reflexivity|].
    assert (<[x := merge_fields a b]> h !! y = Some b) as Hy'
      by (rewrite list_lookup_insert_ne; assumption).
    split; [assumption|].
    split; [apply (same_stats_same_fields _ _ _ _ b); assumption|].
    intros l Hl. apply list_lookup_insert_ne. congruence.
Qed.

Lemma merge_leaves_other_unchanged_witness :
  exists h' : heap,
    Welford.merge 0%nat 1%nat [State 2 3 2; State 1 6 0] =
      (if __count (State 2 3 2) + __count (State 1 6 0) =? 0
       then Raise ZeroDivisionError h'
       else Ret (VWelford 0%nat) h') /\
    h' !! 1%nat = Some (State 1 6 0) /\
    same_stats 1%nat h' 1%nat [State 2 3 2; State 1 6 0] /\
    forall l : loc, l <> 0%nat -> h' !! l = [State 2 3 2; State 1 6 0] !! l.
Proof.
  apply (merge_leaves_other_unchanged [State 2 3 2; State 1 6 0] 0%nat 1%nat
           (State 2 3 2) (State 1 6 0));
    [discriminate | reflexivity | reflexivity].
Defined.

(** ** Dispatch on the argument *)

(** C9.  For accumulators [x] and [w], [x.add(w)] has the outcome of
    [x.merge(w)]: the same heap, and the same value or exception.  A
    value it returns is [x], and it does return whenever the combined
    count is not 0. *)
Theorem add_of_accumulator_is_merge (h : heap) (x w : loc) (a b : state) :
  h !! x = Some a ->
  h !! w = Some b ->
  Welford.add x (VWelford w) h = Welford.merge x w h /\
  (forall v h', Welford.add x (VWelford w) h = Ret v h' -> v = VWelford x) /\
  (__count a + __count b <> 0 ->
   exists h', Welford.add x (VWelford w) h = Ret (VWelford x) h').
Proof.
  intros Hx Hw. rewrite add_welford_run. split; [reflexivity|]. split.
  - intros v h'. apply merge_returns.
  - intros Hn. eexists. rewrite (merge_run _ _ _ _ _ Hx Hw).
    rewrite Z_eqb_0_false by assumption. reflexivity.
Qed.

Lemma add_of_accumulator_is_merge_witness :
  let h := [State 2 3 2; State 1 6 0] in
  Welford.add 0%nat (VWelford 1%nat) h = Welford.merge 0%nat 1%nat h /\
  (forall v h', Welford.add 0%nat (VWelford 1%nat) h = Ret v h' ->
                v = VWelford 0%nat) /\
  (__count (State 2 3 2) + __count (State 1 6 0) <> 0 ->
   exists h', Welford.add 0%nat (VWelford 1%nat) h = Ret (VWelford 0%nat) h').
Proof.
  intros h.
  apply (add_of_accumulator_is_merge h 0%nat 1%nat (State 2 3 2)
           (State 1 6 0)); reflexivity.
Defined.

(** ** Construction from an accumulator *)

(** [Welford(Welford())] raises [ZeroDivisionError]: no accumulator with
    the state of the empty seed is constructed. *)
Lemma Welford_of_empty_raises :
  (w ← Welford.Welford VNone; Welford.Welford (VWelford w)) []
    = Raise ZeroDivisionError [empty; empty].
Proof.
  rewrite bind_run, Welford_None_run. cbn [length app].
  rewrite Welford_run. cbn zeta. cbn [length app].
  rewrite bind_run, add_welford_run.
  rewrite (merge_run 1%nat 0%nat [empty; empty] empty empty);
    reflexivity.
Qed.

Lemma new_run (h : heap) : new h = Ret (length h) (h ++ [empty]).
Proof. reflexivity. Qed.

(** C10, counterexample.  [Welford(Welford())] raises
    [ZeroDivisionError]; and in binary64, where [Welford(w)] merges [w]
    into the new empty object, the copy of [Welford([0.1, 0.1, 0.1])],
    whose fields are [(3, 0.1, 0.0)], has mean [0.10000000000000002]. *)
Lemma Welford_of_accumulator_differs :
  (w ← Welford.Welford VNone; Welford.Welford (VWelford w)) []
    = Raise ZeroDivisionError [empty; empty] /\
  Binary64.add_all
    [0x1.999999999999ap-4; 0x1.999999999999ap-4; 0x1.999999999999ap-4]%float
    Binary64.empty
    = inr (Binary64.State 3 0x1.999999999999ap-4 0) /\
  Binary64.merge Binary64.empty (Binary64.State 3 0x1.999999999999ap-4 0)
    = inr (Binary64.State 3 0x1.999999999999bp-4 0) /\
  (0x1.999999999999bp-4 =? 0x1.999999999999ap-4)%float = false.
Proof.
  split; [exact Welford_of_empty_raises|].
  repeat split; vm_compute; reflexivity.
Qed.

(** C10, as the code has it, over exact arithmetic (no rounding, no
    overflow).  For an accumulator [w] with count at least 1, [Welford(w)]
    goes through [add] to [merge], not through [add_all] and not through
    the scalar update: it returns a new object whose fields are those of
    [w], and every object that existed before, [w] among them, is left as
    it was. *)
Theorem Welford_of_accumulator_copies (h : heap) (w : loc) (s : state) :
  h !! w = Some s ->
  1 <= __count s ->
  exists (n : loc) (h' : heap),
    Welford.Welford (VWelford w) h = Ret n h' /\
    Welford.Welford (VWelford w) h =
      (n ← new; Welford.merge n w;; mret n) h /\
    h !! n = None /\
    h' !! n = Some s /\
    h' !! w = Some s /\
    h' = h ++ [s].
Proof.
  intros Hw Hc.
  assert ((h ++ [empty]) !! w = Some s) as Hw'
    by (apply lookup_app_l_Some; assumption).
  assert (Welford.merge (length h) w (h ++ [empty]) =
          Ret (VWelford (length h)) (h ++ [s])) as Hm.
  { rewrite (merge_run _ _ _ _ _ (lookup_new h empty) Hw').
    cbn [__count empty]. rewrite Z_eqb_0_false by lia.
    rewrite merge_fields_empty_l by lia. rewrite assign_new. reflexivity. }
  exists (length h), (h ++ [s]).
  assert (Welford.Welford (VWelford w) h = Ret (length h) (h ++ [s])) as Hr.
  { rewrite Welford_run. cbn zeta.
    rewrite bind_run, add_welford_run, Hm. reflexivity. }
  split; [exact Hr|]. split.
  - rewrite Hr, bind_run, new_run, bind_run, Hm. reflexivity.
  - split; [apply lookup_ge_None; lia|].
    split; [apply lookup_new|].
    split; [apply lookup_app_l_Some; assumption | reflexivity].
Qed.

Lemma Welford_of_accumulator_copies_witness :
  exists (n : loc) (h' : heap),
    Welford.Welford (VWelford 0%nat) [State 2 3 2] = Ret n h' /\
    Welford.Welford (VWelford 0%nat) [State 2 3 2] =
      (n ← new; Welford.merge n 0%nat;; mret n) [State 2 3 2] /\
    [State 2 3 2] !! n = None /\
    h' !! n = Some (State 2 3 2) /\
    h' !! 0%nat = Some (State 2 3 2) /\
    h' = [State 2 3 2] ++ [State 2 3 2].
Proof.
  apply (Welford_of_accumulator_copies [State 2 3 2] 0%nat (State 2 3 2));
    [reflexivity | cbn; lia].
Defined.

(** ** The invariant is kept *)

Lemma Welford_None_valid (h : heap) :
  Forall valid h ->
  exists w h', Welford.Welford VNone h = Ret w h' /\ Forall valid h'.
Proof.
  intros Hh. do 2 eexists. split; [apply Welford_None_run|].
  apply Forall_app. split; [assumption|].
  apply Forall_singleton, valid_empty.
Qed.

Lemma add_keeps_valid (h : heap) (x : loc) (v : R) (a : state) :
  Forall valid h ->
  h !! x = Some a ->
  exists h', Welford.add x (VNum v) h = Ret (VWelford x) h' /\ Forall valid h'.
Proof.
  intros Hh Hx.
  assert (valid a) as Ha by (eapply Forall_lookup_1; eassumption).
  eexists. split.
  - rewrite (add_num_run _ _ _ _ Hx), Z_eqb_0_false; [reflexivity|].
    destruct Ha. lia.
  - apply Forall_insert; [assumption|]. apply valid_add_fields, Ha.
Qed.

Lemma merge_keeps_valid (h : heap) (x y : loc) (a b : state) :
  Forall valid h ->
  h !! x = Some a ->
  h !! y = Some b ->
  __count a + __count b <> 0 ->
  exists h', Welford.merge x y h = Ret (VWelford x) h' /\ Forall valid h'.
Proof.
  intros Hh Hx Hy Hn.
  assert (valid a) as Ha by (eapply Forall_lookup_1; eassumption).
  assert (valid b) as Hb by (eapply Forall_lookup_1; eassumption).
  eexists. split.
  - rewrite (merge_run _ _ _ _ _ Hx Hy), Z_eqb_0_false by assumption.
    reflexivity.
  - apply Forall_insert; [assumption|]. apply valid_merge_fields; assumption.
Qed.

(** ** A known sequence *)

Example two_pass_var_known :
  two_pass_var [2; 4; 4; 4; 5; 5; 7; 9]%R = (32 / 7)%R.
Proof.
  unfold two_pass_var, two_pass_mean, total.
  cbn [map fold_right length]. rewrite !S_INR. cbn [INR]. field.
Qed.

Example var_known (h : heap) :
  (w ← Welford.Welford (VIter (map VNum [2; 4; 4; 4; 5; 5; 7; 9]%R));
   Welford.var w) h
  = Ret (Fin (32 / 7)) (h ++ [State 8 5 32]).
Proof.
  rewrite bind_run, Welford_run. cbn zeta. rewrite bind_run.
  rewrite (add_all_nums _ _ _ _ (lookup_new h empty)) by (cbn; lia).
  rewrite assign_new.
  assert (fold_fields [2; 4; 4; 4; 5; 5; 7; 9]%R empty = State 8 5 32) as ->.
  { unfold fold_fields, add_fields, empty. cbn [fold_left __count __m1 __m2].
    repeat match goal with |- context [IZR (?a + 1)] =>
      let v := eval cbv in (a + 1) in change (a + 1) with v end.
    f_equal; field. }
  cbn [mret M_ret ret].
  rewrite (var_run _ _ _ (lookup_new h (State 8 5 32))).
  cbn [__count __m2 Z.ltb Z.compare Pos.compare Pos.compare_cont].
  change (8 - 1) with 7. reflexivity.
Qed.

(** * Further properties of the class *)

(** ** Construction *)

Lemma queries_of_empty (h : heap) (w : loc) :
  h !! w = Some empty ->
  Welford.var w h = Ret NaN h /\ Welford.std w h = Ret NaN h /\
  Welford.varp w h = Ret NaN h /\ Welford.stdp w h = Ret NaN h.
Proof.
  intros Hw.
  rewrite (std_run _ _ _ Hw valid_empty), (stdp_run _ _ _ Hw valid_empty).
  rewrite (var_run _ _ _ Hw), (varp_run _ _ _ Hw).
  repeat split; reflexivity.
Qed.

(** X1.  [Welford()] returns a new object with count 0 and mean 0, leaves
    every object that existed as it was, and [var], [std], [varp] and
    [stdp] of the new object are all not-a-number. *)
Theorem Welford_default_is_empty (h : heap) :
  exists (w : loc) (h' : heap),
    Welford.Welford VNone h = Ret w h' /\
    h !! w = None /\
    (forall l s, h !! l = Some s -> h' !! l = Some s) /\
    Welford.acc w h' = Ret (0, 0%R, 0%R) h' /\
    Welford.count w h' = Ret 0 h' /\
    Welford.mean w h' = Ret 0%R h' /\
    Welford.var w h' = Ret NaN h' /\
    Welford.std w h' = Ret NaN h' /\
    Welford.varp w h' = Ret NaN h' /\
    Welford.stdp w h' = Ret NaN h'.
Proof.
  exists (length h), (h ++ [empty]).
  pose proof (lookup_new h empty) as Hw.
  destruct (queries_of_empty _ _ Hw) as (Hv & Hs & Hvp & Hsp).
  split; [apply Welford_None_run|].
  split; [apply lookup_ge_None; lia|].
  split; [intros l s Hl; apply lookup_app_l_Some; assumption|].
  split; [apply (acc_run _ _ _ Hw)|].
  split; [apply (count_run _ _ _ Hw)|].
  split; [apply (mean_run _ _ _ Hw)|].
  repeat split; assumption.
Qed.

Lemma fold_fields_mean (xs : list R) :
  xs <> [] -> __m1 (fold_fields xs empty) = two_pass_mean xs.
Proof.
  intros Hne. destruct (fold_fields_summarises xs) as (_ & Ht & _).
  unfold two_pass_mean. rewrite <- Ht, <- INR_IZR_INZ.
  field. apply not_0_INR. destruct xs; [congruence | discriminate].
Qed.

Lemma Welford_nums_run (xs : list R) (h : heap) :
  Welford.Welford (VIter (map VNum xs)) h =
  Ret (length h) (h ++ [fold_fields xs empty]).
Proof.
  rewrite Welford_run. cbn zeta. rewrite bind_run.
  rewrite (add_all_nums _ _ _ _ (lookup_new h empty)) by (cbn; lia).
  rewrite assign_new. reflexivity.
Qed.

(** X2.  [Welford(xs)] for an iterable [xs] of numbers returns a new
    object and leaves the others as they were; its count is the length of
    [xs], and when [xs] is not empty its mean is the arithmetic mean of
    [xs]. *)
Theorem Welford_of_numbers (h : heap) (xs : list R) :
  exists (w : loc) (h' : heap),
    Welford.Welford (VIter (map VNum xs)) h = Ret w h' /\
    h !! w = None /\
    (forall l s, h !! l = Some s -> h' !! l = Some s) /\
    Welford.count w h' = Ret (Z.of_nat (length xs)) h' /\
    (xs <> [] -> Welford.mean w h' = Ret (two_pass_mean xs) h').
Proof.
  exists (length h), (h ++ [fold_fields xs empty]).
  pose proof (lookup_new h (fold_fields xs empty)) as Hw.
  split; [apply Welford_nums_run|].
  split; [apply lookup_ge_None; lia|].
  split; [intros l s Hl; apply lookup_app_l_Some; assumption|].
  split.
  - rewrite (count_run _ _ _ Hw), fold_fields_count. reflexivity.
  - intros Hne. rewrite (mean_run _ _ _ Hw), fold_fields_mean by assumption.
    reflexivity.
Qed.

(** ** Population variance and the standard deviations *)

Lemma summarises_two_pass_varp (xs : list R) (s : state) :
  xs <> [] ->
  summarises (Z.of_nat (length xs)) (total xs)
    (total (map (fun x => x * x)%R xs)) s ->
  (__m2 s / IZR (__count s))%R = two_pass_varp xs.
Proof.
  intros Hne (Hc & Ht & Hq). unfold two_pass_varp, two_pass_mean.
  rewrite total_sq_dev, Hc, <- INR_IZR_INZ, Hq.
  rewrite <- INR_IZR_INZ in Ht.
  assert (INR (length xs) <> 0)%R
    by (apply not_0_INR; destruct xs; [congruence | discriminate]).
  rewrite <- Ht. field. assumption.
Qed.

(** X3.  For every list [xs] of at least two numbers, after [add_all(xs)]
    on an empty accumulator [varp] is the two-pass population variance of
    [xs], the squared deviations from the mean over [n]. *)
Theorem varp_is_two_pass_variance (h : heap) (self : loc) (xs : list R) :
  h !! self = Some empty ->
  (2 <= length xs)%nat ->
  exists h' : heap,
    Welford.add_all self (map VNum xs) h = Ret (VWelford self) h' /\
    Welford.varp self h' = Ret (Fin (two_pass_varp xs)) h'.
Proof.
  intros Hs Hlen. eexists. split.
  - apply (add_all_nums _ _ _ _ Hs). cbn. lia.
  - rewrite (varp_run _ _ (fold_fields xs empty))
      by (eapply lookup_assigned, Hs).
    rewrite fold_fields_count at 1.
    destruct (Z.ltb_spec (Z.of_nat (length xs)) 2) as [Hlt|_]; [lia|].
    rewrite (summarises_two_pass_varp xs).
    + reflexivity.
    + destruct xs; [cbn in Hlen; lia | discriminate].
    + apply fold_fields_summarises.
Qed.

Lemma varp_is_two_pass_variance_witness :
  exists h' : heap,
    Welford.add_all 0%nat (map VNum [2; 4; 9]%R) [empty]
      = Ret (VWelford 0%nat) h' /\
    Welford.varp 0%nat h' = Ret (Fin (two_pass_varp [2; 4; 9]%R)) h'.
Proof.
  apply (varp_is_two_pass_variance [empty] 0%nat [2; 4; 9]%R);
    [reflexivity | cbn; lia].
Defined.

(** X4.  Over exact arithmetic (no rounding, no overflow): for an
    accumulator that satisfies the invariant and has count at least 2,
    [std] and [stdp] return the non-negative numbers whose squares are
    the values of [var] and [varp]; and [varp] is [var] times
    [(n - 1) / n], so it is not above [var]. *)
Theorem std_is_root_of_var (h : heap) (self : loc) (s : state) :
  h !! self = Some s ->
  valid s ->
  2 <= __count s ->
  exists v p sd sdp : R,
    Welford.var self h = Ret (Fin v) h /\
    Welford.varp self h = Ret (Fin p) h /\
    Welford.std self h = Ret (Fin sd) h /\
    Welford.stdp self h = Ret (Fin sdp) h /\
    (0 <= sd /\ sd * sd = v)%R /\
    (0 <= sdp /\ sdp * sdp = p)%R /\
    (p = v * IZR (__count s - 1) / IZR (__count s))%R /\
    (0 <= p <= v)%R.
Proof.
  intros Hs Hv Hc. pose proof Hv as [_ Hm].
  assert ((__count s <? 2) = false) as Hlt by (apply Z.ltb_ge; assumption).
  assert (0 < IZR (__count s - 1))%R as Hn1 by (apply IZR_lt; lia).
  assert (0 < IZR (__count s))%R as Hn by (apply IZR_lt; lia).
  assert (0 <= __m2 s / IZR (__count s - 1))%R as Hvar
    by (apply Rdiv_nonneg; assumption).
  assert (0 <= __m2 s / IZR (__count s))%R as Hvarp
    by (apply Rdiv_nonneg; assumption).
  do 4 eexists.
  rewrite (var_run _ _ _ Hs), (varp_run _ _ _ Hs),
    (std_run _ _ _ Hs Hv), (stdp_run _ _ _ Hs Hv), Hlt.
  split; [reflexivity|]. split; [reflexivity|].
  split; [reflexivity|]. split; [reflexivity|].
  split; [split; [apply sqrt_pos | apply sqrt_sqrt; assumption]|].
  split; [split; [apply sqrt_pos | apply sqrt_sqrt; assumption]|].
  split; [field; lra|].
  split; [assumption|].
  rewrite minus_IZR in *.
  apply Rmult_le_reg_r with (IZR (__count s) * (IZR (__count s) - 1))%R;
    [nra|].
  replace (__m2 s / IZR (__count s) * (IZR (__count s) * (IZR (__count s) - 1)))%R
    with (__m2 s * (IZR (__count s) - 1))%R by (field; lra).
  replace (__m2 s / (IZR (__count s) - 1)
           * (IZR (__count s) * (IZR (__count s) - 1)))%R
    with (__m2 s * IZR (__count s))%R by (field; lra).
  nra.
Qed.

Lemma std_is_root_of_var_witness :
  exists v p sd sdp : R,
    Welford.var 0%nat [State 2 3 2] = Ret (Fin v) [State 2 3 2] /\
    Welford.varp 0%nat [State 2 3 2] = Ret (Fin p) [State 2 3 2] /\
    Welford.std 0%nat [State 2 3 2] = Ret (Fin sd) [State 2 3 2] /\
    Welford.stdp 0%nat [State 2 3 2] = Ret (Fin sdp) [State 2 3 2] /\
    (0 <= sd /\ sd * sd = v)%R /\
    (0 <= sdp /\ sdp * sdp = p)%R /\
    (p = v * IZR (__count (State 2 3 2) - 1) / IZR (__count (State 2 3 2)))%R /\
    (0 <= p <= v)%R.
Proof.
  apply (std_is_root_of_var [State 2 3 2] 0%nat (State 2 3 2));
    [reflexivity | apply valid_example | cbn; lia].
Defined.

(** ** Arguments that are not numbers *)

Lemma add_bad_run (self : loc) (elem : pyval) (h : heap) (s : state) :
  h !! self = Some s ->
  elem = VNone \/ (exists xs, elem = VIter xs) ->
  Welford.add self elem h =
  Raise TypeError (<[self := State (__count s + 1) (__m1 s) (__m2 s)]> h).
Proof.
  intros Hs [->|[xs ->]]; unfold Welford.add; do 3 run_step; reflexivity.
Qed.

Lemma add_wrong (self : loc) (elem : pyval) (h : heap) :
  h !! self = None -> Welford.add self elem h = Wrong.
Proof.
  intros Hs. destruct elem; unfold Welford.add;
    try (rewrite bind_run, getattr_wrong by assumption; reflexivity).
  rewrite bind_run, merge_wrong_self by assumption. reflexivity.
Qed.

Lemma add_returns (self : loc) (elem : pyval) (h h' : heap) (v : pyval) :
  Welford.add self elem h = Ret v h' -> v = VWelford self.
Proof.
  destruct (h !! self) as [s|] eqn:Hs;
    [|rewrite add_wrong by assumption; discriminate].
  destruct elem as [|x|l|xs].
  - rewrite (add_bad_run _ _ _ _ Hs) by (left; reflexivity). discriminate.
  - rewrite (add_num_run _ _ _ _ Hs).
    destruct (_ =? 0); [discriminate|]. intros [= <- _]. reflexivity.
  - rewrite add_welford_run. apply merge_returns.
  - rewrite (add_bad_run _ _ _ _ Hs) by (right; eexists; reflexivity).
    discriminate.
Qed.

(** X5.  [add(None)] and [add] of an iterable raise [TypeError], but only
    after the count has been incremented: the object is left with count
    [n + 1] and its old mean and m2. *)
Theorem add_of_non_number_corrupts_count
    (h : heap) (self : loc) (n : Z) (mean m2 : R) (xs : list pyval) :
  h !! self = Some (State n mean m2) ->
  Welford.add self VNone h =
    Raise TypeError (<[self := State (n + 1) mean m2]> h) /\
  Welford.add self (VIter xs) h =
    Raise TypeError (<[self := State (n + 1) mean m2]> h) /\
  Welford.count self (<[self := State (n + 1) mean m2]> h) =
    Ret (n + 1) (<[self := State (n + 1) mean m2]> h).
Proof.
  intros Hs.
  rewrite (add_bad_run _ VNone _ _ Hs) by (left; reflexivity).
  rewrite (add_bad_run _ (VIter xs) _ _ Hs) by (right; eexists; reflexivity).
  repeat split.
  apply (count_run _ _ (State (n + 1) mean m2)).
  eapply lookup_assigned, Hs.
Qed.

Lemma add_of_non_number_corrupts_count_witness :
  Welford.add 0%nat VNone [State 2 3 2] =
    Raise TypeError (<[0%nat := State (2 + 1) 3 2]> [State 2 3 2]) /\
  Welford.add 0%nat (VIter [VNum 1]) [State 2 3 2] =
    Raise TypeError (<[0%nat := State (2 + 1) 3 2]> [State 2 3 2]) /\
  Welford.count 0%nat (<[0%nat := State (2 + 1) 3 2]> [State 2 3 2]) =
    Ret (2 + 1) (<[0%nat := State (2 + 1) 3 2]> [State 2 3 2]).
Proof.
  apply (add_of_non_number_corrupts_count [State 2 3 2] 0%nat 2 3 2 [VNum 1]).
  reflexivity.
Defined.

(** ** Composition of [add] and [add_all] *)

Lemma add_all_loop_app (self : loc) (xs ys : list pyval) :
  forall h : heap,
  Welford.add_all_loop self (xs ++ ys) h =
  (Welford.add_all_loop self xs;; Welford.add_all_loop self ys) h.
Proof.
  induction xs as [|e xs IH]; intros h.
  - reflexivity.
  - cbn [app Welford.add_all_loop]. rewrite !bind_run.
    destruct (Welford.add self e h) as [v h1|ex h1|]; try reflexivity.
    rewrite IH, bind_run. reflexivity.
Qed.

Lemma add_all_single (self : loc) (elem : pyval) (h : heap) :
  Welford.add_all self [elem] h = Welford.add self elem h.
Proof.
  unfold Welford.add_all. cbn [Welford.add_all_loop]. rewrite !bind_run.
  destruct (Welford.add self elem h) as [v h1|ex h1|] eqn:E; try reflexivity.
  apply add_returns in E. subst v. reflexivity.
Qed.

(** X6.  [add_all] of a concatenation is [add_all] of the first part
    followed by [add_all] of the second, and [add_all(xs).add(e)] is
    [add_all] of [xs] with [e] appended: same value or exception and same
    heap, for elements of any kind. *)
Theorem add_all_composes (self : loc) (xs ys : list pyval) (e : pyval)
    (h : heap) :
  Welford.add_all self (xs ++ ys) h =
    (Welford.add_all self xs;; Welford.add_all self ys) h /\
  Welford.add_all self (xs ++ [e]) h =
    (Welford.add_all self xs;; Welford.add self e) h.
Proof.
  assert (forall zs, Welford.add_all self (xs ++ zs) h =
            (Welford.add_all self xs;; Welford.add_all self zs) h) as Happ.
  { intros zs. unfold Welford.add_all.
    rewrite bind_run, add_all_loop_app, !bind_run.
    destruct (Welford.add_all_loop self xs h) as [[] h1|ex h1|];
      reflexivity. }
  split; [apply Happ|].
  rewrite Happ, !bind_run.
  destruct (Welford.add_all self xs h) as [v h1|ex h1|]; try reflexivity.
  apply add_all_single.
Qed.

(** X7.  [add_all] stops at the first element that is not a number or an
    accumulator, be it [None] or an iterable: the numbers before it have
    been added, the count has been incremented once more for the failed
    element, and the elements after it are not looked at. *)
Theorem add_all_stops_at_non_number
    (h : heap) (self : loc) (s : state) (xs : list R)
    (bad : pyval) (rest : list pyval) :
  h !! self = Some s ->
  0 <= __count s ->
  bad = VNone \/ (exists ys, bad = VIter ys) ->
  let s' := fold_fields xs s in
  Welford.add_all self (map VNum xs) h =
    Ret (VWelford self) (<[self := s']> h) /\
  Welford.add_all self (map VNum xs ++ bad :: rest) h =
    Raise TypeError
      (<[self := State (__count s' + 1) (__m1 s') (__m2 s')]> h).
Proof.
  intros Hs Hc Hbad s'.
  split; [apply (add_all_nums _ _ _ _ Hs Hc)|].
  unfold Welford.add_all.
  rewrite bind_run, add_all_loop_app, bind_run.
  rewrite (add_all_loop_nums _ _ _ _ Hs Hc).
  cbn [Welford.add_all_loop]. rewrite bind_run.
  rewrite (add_bad_run _ bad _ s') by
    (first [eapply lookup_assigned, Hs | exact Hbad]).
  rewrite list_insert_insert_eq. reflexivity.
Qed.

Lemma add_all_stops_at_non_number_witness :
  let s' := fold_fields [6%R] (State 2 3 2) in
  Welford.add_all 0%nat (map VNum [6%R]) [State 2 3 2] =
    Ret (VWelford 0%nat) (<[0%nat := s']> [State 2 3 2]) /\
  Welford.add_all 0%nat (map VNum [6%R] ++ VIter [VNum 1] :: [VNum 7])
    [State 2 3 2] =
    Raise TypeError
      (<[0%nat := State (__count s' + 1) (__m1 s') (__m2 s')]> [State 2 3 2]).
Proof.
  apply (add_all_stops_at_non_number [State 2 3 2] 0%nat (State 2 3 2)
           [6%R] (VIter [VNum 1]) [VNum 7]);
    [reflexivity | cbn; lia | right; eexists; reflexivity].
Defined.

(** ** Algebra of [merge] *)

Lemma merge_fields_comm (a b : state) :
  merge_fields a b = merge_fields b a.
Proof.
  unfold merge_fields.
  rewrite (Z.add_comm (__count b)), (Z.mul_comm (__count b)).
  f_equal; unfold Rdiv; ring.
Qed.

(** X8.  For two distinct accumulators with combined count not 0, the
    fields [x] gets from [x.merge(y)] are the fields [y] gets from
    [y.merge(x)]. *)
Theorem merge_is_commutative (h : heap) (x y : loc) (a b : state) :
  x <> y ->
  h !! x = Some a ->
  h !! y = Some b ->
  __count a + __count b <> 0 ->
  exists (s : state) (h1 h2 : heap),
    Welford.merge x y h = Ret (VWelford x) h1 /\
    Welford.merge y x h = Ret (VWelford y) h2 /\
    h1 !! x = Some s /\ h2 !! y = Some s /\
    h1 !! y = Some b /\ h2 !! x = Some a.
Proof.
  intros Hxy Hx Hy Hn. exists (merge_fields a b). do 2 eexists.
  rewrite (merge_run _ _ _ _ _ Hx Hy), (merge_run _ _ _ _ _ Hy Hx).
  rewrite (Z.add_comm (__count b)), Z_eqb_0_false by assumption.
  split; [reflexivity|]. split; [reflexivity|].
  split; [eapply lookup_assigned, Hx|].
  split; [rewrite (merge_fields_comm b a); eapply lookup_assigned, Hy|].
  split; rewrite list_lookup_insert_ne by congruence; assumption.
Qed.

Lemma merge_is_commutative_witness :
  exists (s : state) (h1 h2 : heap),
    Welford.merge 0%nat 1%nat [State 2 3 2; State 1 6 0]
      = Ret (VWelford 0%nat) h1 /\
    Welford.merge 1%nat 0%nat [State 2 3 2; State 1 6 0]
      = Ret (VWelford 1%nat) h2 /\
    h1 !! 0%nat = Some s /\ h2 !! 1%nat = Some s /\
    h1 !! 1%nat = Some (State 1 6 0) /\ h2 !! 0%nat = Some (State 2 3 2).
Proof.
  apply (merge_is_commutative [State 2 3 2; State 1 6 0] 0%nat 1%nat
           (State 2 3 2) (State 1 6 0));
    [discriminate | reflexivity | reflexivity | cbn; lia].
Defined.

Lemma merge_fields_assoc (a b c : state) :
  __count a + __count b <> 0 ->
  __count b + __count c <> 0 ->
  __count a + __count b + __count c <> 0 ->
  merge_fields (merge_fields a b) c = merge_fields a (merge_fields b c).
Proof.
  intros Hab Hbc Habc. unfold merge_fields. cbn [__count __m1 __m2].
  assert (IZR (__count a) + IZR (__count b) <> 0)%R
    by (rewrite <- plus_IZR; apply not_0_IZR; assumption).
  assert (IZR (__count b) + IZR (__count c) <> 0)%R
    by (rewrite <- plus_IZR; apply not_0_IZR; assumption).
  assert (IZR (__count a) + IZR (__count b) + IZR (__count c) <> 0)%R
    by (rewrite <- !plus_IZR; apply not_0_IZR; assumption).
  assert (IZR (__count a) + (IZR (__count b) + IZR (__count c)) <> 0)%R
    by (rewrite <- Rplus_assoc; assumption).
  rewrite Z.add_assoc. rewrite !mult_IZR, !plus_IZR.
  f_equal; field; repeat split; assumption.
Qed.

(** X9.  Merging is associative: for three distinct accumulators,
    [x.merge(y)] then [x.merge(z)] leaves in [x] the fields that
    [y.merge(z)] then [x.merge(y)] leaves in [x]. *)
Theorem merge_is_associative (h : heap) (x y z : loc) (a b c : state) :
  x <> y -> x <> z -> y <> z ->
  h !! x = Some a ->
  h !! y = Some b ->
  h !! z = Some c ->
  0 <= __count a -> 0 <= __count b -> 0 <= __count c ->
  1 <= __count a + __count b ->
  1 <= __count b + __count c ->
  exists (s : state) (h1 h2 : heap),
    (Welford.merge x y;; Welford.merge x z) h = Ret (VWelford x) h1 /\
    (Welford.merge y z;; Welford.merge x y) h = Ret (VWelford x) h2 /\
    h1 !! x = Some s /\ h2 !! x = Some s.
Proof.
  intros Hxy Hxz Hyz Hx Hy Hz Ha Hb Hc Hab Hbc.
  exists (merge_fields (merge_fields a b) c). do 2 eexists.
  rewrite !bind_run.
  rewrite (merge_run _ _ _ _ _ Hx Hy), (merge_run _ _ _ _ _ Hy Hz).
  rewrite !Z_eqb_0_false by lia.
  rewrite (merge_run x z _ (merge_fields a b) c);
    [| eapply lookup_assigned, Hx
     | rewrite list_lookup_insert_ne by congruence; assumption].
  rewrite (merge_run x y _ a (merge_fields b c));
    [| rewrite list_lookup_insert_ne by congruence; assumption
     | eapply lookup_assigned, Hy].
  cbn [merge_fields __count]. rewrite !Z_eqb_0_false by lia.
  split; [reflexivity|]. split; [reflexivity|]. split.
  - apply list_lookup_insert_eq. rewrite length_insert.
    eapply lookup_lt_Some, Hx.
  - rewrite <- merge_fields_assoc by lia.
    apply list_lookup_insert_eq. rewrite length_insert.
    eapply lookup_lt_Some, Hx.
Qed.

Lemma merge_is_associative_witness :
  exists (s : state) (h1 h2 : heap),
    (Welford.merge 0%nat 1%nat;; Welford.merge 0%nat 2%nat)
      [State 2 3 2; State 1 6 0; empty] = Ret (VWelford 0%nat) h1 /\
    (Welford.merge 1%nat 2%nat;; Welford.merge 0%nat 1%nat)
      [State 2 3 2; State 1 6 0; empty] = Ret (VWelford 0%nat) h2 /\
    h1 !! 0%nat = Some s /\ h2 !! 0%nat = Some s.
Proof.
  apply (merge_is_associative [State 2 3 2; State 1 6 0; empty]
           0%nat 1%nat 2%nat (State 2 3 2) (State 1 6 0) empty);
    first [discriminate | reflexivity | cbn; lia].
Defined.

(** X10.  Over exact arithmetic (no rounding, no overflow): an
    accumulator merged with itself, [x.merge(x)] at count [n <> 0],
    doubles the count and m2 and keeps the mean. *)
Theorem merge_with_itself_doubles
    (h : heap) (x : loc) (n : Z) (mean m2 : R) :
  h !! x = Some (State n mean m2) ->
  n <> 0 ->
  Welford.merge x x h =
  Ret (VWelford x) (<[x := State (n + n) mean (m2 + m2)]> h).
Proof.
  intros Hx Hn. rewrite (merge_run _ _ _ _ _ Hx Hx). cbn [__count].
  rewrite Z_eqb_0_false by lia.
  replace (merge_fields (State n mean m2) (State n mean m2))
    with (State (n + n) mean (m2 + m2)); [reflexivity|].
  unfold merge_fields. cbn [__count __m1 __m2].
  assert (IZR n <> 0)%R by (apply not_0_IZR; assumption).
  rewrite plus_IZR. f_equal; field; lra.
Qed.

Lemma merge_with_itself_doubles_witness :
  Welford.merge 0%nat 0%nat [State 2 3 2] =
  Ret (VWelford 0%nat) (<[0%nat := State (2 + 2) 3 (2 + 2)]> [State 2 3 2]).
Proof.
  apply (merge_with_itself_doubles [State 2 3 2] 0%nat 2 3 2);
    [reflexivity | lia].
Defined.

(** ** The order of the observations *)

Lemma total_Permutation (xs ys : list R) :
  Permutation xs ys -> total xs = total ys.
Proof.
  unfold total. induction 1; cbn [fold_right]; first [lra | congruence].
Qed.

Lemma state_summarises (s : state) :
  summarises (__count s) (__m1 s * IZR (__count s))
    (__m2 s + __m1 s * (__m1 s * IZR (__count s))) s.
Proof. unfold summarises. split; [|split]; [reflexivity | reflexivity | ring]. Qed.

Lemma fold_fields_Permutation (xs ys : list R) (s : state) :
  0 <= __count s ->
  Permutation xs ys ->
  fold_fields xs s = fold_fields ys s.
Proof.
  intros Hc Hp. destruct xs as [|x xs].
  - apply Permutation_nil_l in Hp. subst ys. reflexivity.
  - pose proof (summarises_fold (x :: xs) _ _ _ s Hc (state_summarises s))
      as Hxs.
    pose proof (summarises_fold ys _ _ _ s Hc (state_summarises s)) as Hys.
    rewrite <- (Permutation_length Hp) in Hys.
    rewrite <- (total_Permutation _ _ Hp) in Hys.
    rewrite <- (total_Permutation _ _
                  (Permutation_map (fun x => x * x)%R Hp)) in Hys.
    eapply summarises_unique; [|exact Hxs|exact Hys]. cbn [length]. lia.
Qed.

(** X11.  The order in which numbers are added does not matter: [add_all]
    of a list and of any permutation of it leave the same heap. *)
Theorem add_all_ignores_order
    (h : heap) (self : loc) (s : state) (xs ys : list R) :
  h !! self = Some s ->
  0 <= __count s ->
  Permutation xs ys ->
  exists h' : heap,
    Welford.add_all self (map VNum xs) h = Ret (VWelford self) h' /\
    Welford.add_all self (map VNum ys) h = Ret (VWelford self) h'.
Proof.
  intros Hs Hc Hp. eexists.
  rewrite !(add_all_nums _ _ _ _ Hs Hc).
  rewrite (fold_fields_Permutation _ _ _ Hc Hp). split; reflexivity.
Qed.

Lemma add_all_ignores_order_witness :
  exists h' : heap,
    Welford.add_all 0%nat (map VNum [2; 4; 9]%R) [State 2 3 2]
      = Ret (VWelford 0%nat) h' /\
    Welford.add_all 0%nat (map VNum [9; 2; 4]%R) [State 2 3 2]
      = Ret (VWelford 0%nat) h'.
Proof.
  apply (add_all_ignores_order [State 2 3 2] 0%nat (State 2 3 2)
           [2; 4; 9]%R [9; 2; 4]%R); [reflexivity | cbn; lia |].
  symmetry. apply (Permutation_cons_append [2; 4]%R 9%R).
Defined.

(** ** The invariant, for arguments of any kind *)

Lemma valid_heap_mono (n m : nat) (h : heap) :
  (n <= m)%nat -> valid_heap m h -> valid_heap n h.
Proof. intros Hnm [Hv Hl]. split; [assumption | lia]. Qed.

Lemma leaves_mono {A} (P Q : heap -> Prop) (o : outcome A) :
  (forall h, P h -> Q h) -> leaves P o -> leaves Q o.
Proof. intros HPQ. destruct o; cbn; auto. Qed.

Lemma merge_leaves_valid (h : heap) (x y : loc) :
  Forall valid h ->
  (x < length h)%nat ->
  (y < length h)%nat ->
  leaves (valid_heap (length h)) (Welford.merge x y h).
Proof.
  intros Hh Hx Hy.
  apply lookup_lt_is_Some in Hx as [a Ha].
  apply lookup_lt_is_Some in Hy as [b Hb].
  assert (valid a) by (eapply Forall_lookup_1; eassumption).
  assert (valid b) by (eapply Forall_lookup_1; eassumption).
  rewrite (merge_run _ _ _ _ _ Ha Hb).
  destruct (Z.eqb_spec (__count a + __count b) 0) as [|Hn]; cbn.
  - split; [assumption | lia].
  - split; [|rewrite length_insert; lia].
    apply Forall_insert; [assumption|].
    apply valid_merge_fields; assumption.
Qed.

Lemma add_leaves_valid (h : heap) (x : loc) (elem : pyval) :
  Forall valid h ->
  (x < length h)%nat ->
  elem_ok h elem ->
  leaves (valid_heap (length h)) (Welford.add x elem h).
Proof.
  intros Hh Hx He.
  pose proof Hx as Hx'. apply lookup_lt_is_Some in Hx' as [a Ha].
  assert (valid a) as Hva by (eapply Forall_lookup_1; eassumption).
  assert (valid (State (__count a + 1) (__m1 a) (__m2 a))) as Hbad
    by (destruct Hva; split; cbn; [lia | assumption]).
  destruct elem as [|v|l|xs].
  - rewrite (add_bad_run _ _ _ _ Ha) by (left; reflexivity). cbn.
    split; [apply Forall_insert; assumption | rewrite length_insert; lia].
  - rewrite (add_num_run _ _ _ _ Ha), Z_eqb_0_false by (destruct Hva; lia).
    cbn. split; [|rewrite length_insert; lia].
    apply Forall_insert; [assumption | apply valid_add_fields, Hva].
  - rewrite add_welford_run. apply merge_leaves_valid; assumption.
  - rewrite (add_bad_run _ _ _ _ Ha) by (right; eexists; reflexivity). cbn.
    split; [apply Forall_insert; assumption | rewrite length_insert; lia].
Qed.

Lemma elem_ok_mono (h h' : heap) (elem : pyval) :
  (length h <= length h')%nat -> elem_ok h elem -> elem_ok h' elem.
Proof. intros Hl. destruct elem; cbn; try tauto. lia. Qed.

Lemma add_all_loop_leaves_valid (n : nat) (x : loc) (es : list pyval) :
  forall h : heap,
  valid_heap n h ->
  (x < n)%nat ->
  Forall (fun e => forall h', (n <= length h')%nat -> elem_ok h' e) es ->
  leaves (valid_heap n) (Welford.add_all_loop x es h).
Proof.
  induction es as [|e es IH]; intros h [Hv Hl] Hx Hes.
  - cbn. split; assumption.
  - apply Forall_cons in Hes as [He Hes].
    cbn [Welford.add_all_loop]. rewrite bind_run.
    assert (leaves (valid_heap n) (Welford.add x e h)) as Hadd.
    { eapply leaves_mono; [|apply add_leaves_valid].
      - intros h'. apply valid_heap_mono. assumption.
      - assumption.
      - lia.
      - apply He. assumption. }
    destruct (Welford.add x e h) as [v h1|ex h1|]; cbn in Hadd;
      [|assumption|contradiction].
    apply IH; assumption.
Qed.

Lemma add_all_leaves_valid (h : heap) (x : loc) (es : list pyval) :
  Forall valid h ->
  (x < length h)%nat ->
  Forall (elem_ok h) es ->
  leaves (valid_heap (length h)) (Welford.add_all x es h).
Proof.
  intros Hh Hx Hes. unfold Welford.add_all. rewrite bind_run.
  assert (leaves (valid_heap (length h)) (Welford.add_all_loop x es h)) as H.
  { apply add_all_loop_leaves_valid; [split; [assumption | lia] | lia |].
    eapply Forall_impl; [exact Hes|]. intros e He h' Hl.
    eapply elem_ok_mono; eassumption. }
  destruct (Welford.add_all_loop x es h); cbn in *; assumption.
Qed.

Lemma Welford_leaves_valid (h : heap) (data : pyval) :
  Forall valid h ->
  data_ok h data ->
  leaves (valid_heap (S (length h))) (Welford.Welford data h).
Proof.
  intros Hh Hd.
  assert (Forall valid (h ++ [empty])) as Hh0
    by (apply Forall_app; split;
        [assumption | apply Forall_singleton, valid_empty]).
  assert (length (h ++ [empty]) = S (length h)) as Hl
    by (rewrite length_app; cbn; lia).
  assert (forall e, elem_ok h e -> elem_ok (h ++ [empty]) e) as Hmono
    by (intros e; apply elem_ok_mono; lia).
  rewrite Welford_run. cbn zeta.
  destruct data as [|v|l|xs].
  - cbn. split; [assumption | lia].
  - rewrite bind_run.
    pose proof (add_leaves_valid (h ++ [empty]) (length h) (VNum v) Hh0)
      as H. rewrite Hl in H.
    destruct (Welford.add _ _ _); cbn in *; apply H; first [lia | exact I].
  - rewrite bind_run.
    pose proof (add_leaves_valid (h ++ [empty]) (length h) (VWelford l) Hh0)
      as H. rewrite Hl in H.
    destruct (Welford.add _ _ _); cbn in *; apply H; lia.
  - rewrite bind_run.
    pose proof (add_all_leaves_valid (h ++ [empty]) (length h) xs Hh0)
      as H. rewrite Hl in H.
    assert (Forall (elem_ok (h ++ [empty])) xs)
      by (eapply Forall_impl; [exact Hd | exact Hmono]).
    destruct (Welford.add_all _ _ _); cbn in *; apply H;
      first [lia | assumption].
Qed.

(** X12.  Over exact arithmetic (no rounding, no overflow): on a heap
    whose objects all have count >= 0 and m2 >= 0, every call of [merge],
    [add], [add_all] and the constructor, with arguments of any kind,
    returns or raises and leaves a heap whose objects all have
    count >= 0 and m2 >= 0, with no object removed. *)
Theorem methods_keep_invariant (h : heap) :
  Forall valid h ->
  (forall x y : loc, (x < length h)%nat -> (y < length h)%nat ->
     leaves (valid_heap (length h)) (Welford.merge x y h)) /\
  (forall (x : loc) (elem : pyval), (x < length h)%nat -> elem_ok h elem ->
     leaves (valid_heap (length h)) (Welford.add x elem h)) /\
  (forall (x : loc) (es : list pyval),
     (x < length h)%nat -> Forall (elem_ok h) es ->
     leaves (valid_heap (length h)) (Welford.add_all x es h)) /\
  (forall data : pyval, data_ok h data ->
     leaves (valid_heap (S (length h))) (Welford.Welford data h)).
Proof.
  intros Hh. repeat split.
  - intros x y. apply merge_leaves_valid. assumption.
  - intros x elem. apply add_leaves_valid. assumption.
  - intros x es. apply add_all_leaves_valid. assumption.
  - intros data. apply Welford_leaves_valid. assumption.
Qed.

Lemma methods_keep_invariant_witness :
  let h := [State 2 3 2; empty] in
  (forall x y : loc, (x < length h)%nat -> (y < length h)%nat ->
     leaves (valid_heap (length h)) (Welford.merge x y h)) /\
  (forall (x : loc) (elem : pyval), (x < length h)%nat -> elem_ok h elem ->
     leaves (valid_heap (length h)) (Welford.add x elem h)) /\
  (forall (x : loc) (es : list pyval),
     (x < length h)%nat -> Forall (elem_ok h) es ->
     leaves (valid_heap (length h)) (Welford.add_all x es h)) /\
  (forall data : pyval, data_ok h data ->
     leaves (valid_heap (S (length h))) (Welford.Welford data h)).
Proof.
  intros h. apply (methods_keep_invariant h).
  constructor; [apply valid_example|].
  constructor; [apply valid_empty | constructor].
Defined.

(** ** An iterable of accumulators *)

(** X13.  Over exact arithmetic (no rounding, no overflow):
    [Welford([a, b])] for two accumulators, [a] with count at least 1 and
    [b] with count at least 0, merges them into a new object: its count
    is the sum of the counts, its mean the weighted mean, its m2 the
    combined m2; [a], [b] and every other object are left as they
    were. *)
Theorem Welford_of_accumulators_merges
    (h : heap) (a b : loc) (n_a n_b : Z) (mean_a mean_b m2_a m2_b : R) :
  h !! a = Some (State n_a mean_a m2_a) ->
  h !! b = Some (State n_b mean_b m2_b) ->
  1 <= n_a ->
  0 <= n_b ->
  let n := n_a + n_b in
  Welford.Welford (VIter [VWelford a; VWelford b]) h =
  Ret (length h)
    (h ++ [State n
             ((IZR n_a * mean_a + IZR n_b * mean_b) / IZR n)
             (m2_a + m2_b
              + (mean_a - mean_b) * (mean_a - mean_b) * IZR (n_a * n_b)
                / IZR n)]).
Proof.
  intros Ha Hb Hna Hnb n.
  assert (a <> length h) as Hal
    by (apply lookup_lt_Some in Ha; lia).
  assert (b <> length h) as Hbl
    by (apply lookup_lt_Some in Hb; lia).
  rewrite Welford_run. cbn zeta. rewrite bind_run.
  unfold Welford.add_all. rewrite bind_run.
  cbn [Welford.add_all_loop]. rewrite bind_run, add_welford_run.
  rewrite (merge_run _ _ _ empty (State n_a mean_a m2_a));
    [| apply lookup_new | apply lookup_app_l_Some; assumption].
  cbn [__count empty]. rewrite Z_eqb_0_false by lia.
  rewrite merge_fields_empty_l by (cbn; lia). rewrite assign_new.
  rewrite bind_run, add_welford_run.
  rewrite (merge_run _ _ _ (State n_a mean_a m2_a) (State n_b mean_b m2_b));
    [| apply lookup_new | apply lookup_app_l_Some; assumption].
  cbn [__count]. rewrite Z_eqb_0_false by lia.
  rewrite assign_new. reflexivity.
Qed.

Lemma Welford_of_accumulators_merges_witness :
  Welford.Welford (VIter [VWelford 0%nat; VWelford 1%nat])
    [State 2 3 2; State 1 6 0] =
  Ret (length [State 2 3 2; State 1 6 0])
    ([State 2 3 2; State 1 6 0] ++
     [State (2 + 1)
        ((IZR 2 * 3 + IZR 1 * 6) / IZR (2 + 1))
        (2 + 0 + (3 - 6) * (3 - 6) * IZR (2 * 1) / IZR (2 + 1))]).
Proof.
  apply (Welford_of_accumulators_merges [State 2 3 2; State 1 6 0]
           0%nat 1%nat 2 1 3 6 2 0);
    [reflexivity | reflexivity | lia | lia].
Defined.

(** ** How one observation moves the state *)

(** X14.  Over exact arithmetic (no rounding, no overflow): [add(x)] on
    an accumulator with count [n >= 0] moves the mean towards [x] without
    passing it, and does not decrease m2. *)
Theorem add_moves_mean_towards_value
    (h : heap) (self : loc) (n : Z) (mean m2 x : R) :
  h !! self = Some (State n mean m2) ->
  0 <= n ->
  exists (mean' m2' : R),
    Welford.add self (VNum x) h =
      Ret (VWelford self) (<[self := State (n + 1) mean' m2']> h) /\
    (mean <= mean' <= x \/ x <= mean' <= mean)%R /\
    (m2 <= m2')%R.
Proof.
  intros Hs Hn. do 2 eexists.
  rewrite (add_num_run _ _ _ _ Hs). cbn [__count].
  rewrite Z_eqb_0_false by lia.
  split; [reflexivity|]. cbn [__count __m1 __m2].
  assert (0 <= IZR n)%R as Hn' by (apply IZR_le; assumption).
  rewrite plus_IZR.
  set (k := (IZR n / (IZR n + 1))%R).
  assert (0 <= k <= 1)%R as Hk.
  { unfold k. split; [apply Rdiv_nonneg; lra|].
    apply Rmult_le_reg_r with (IZR n + 1)%R; [lra|].
    replace (IZR n / (IZR n + 1) * (IZR n + 1))%R with (IZR n)
      by (field; lra). lra. }
  replace (mean + (x - mean) / (IZR n + 1))%R
    with (x - (x - mean) * k)%R by (unfold k; field; lra).
  clearbody k.
  assert (0 <= (x - mean) * (x - mean))%R as Hsq by apply Rle_0_sqr.
  split.
  - destruct (Rle_dec mean x); [left | right].
    + assert (0 <= (x - mean) * k)%R by (apply Rmult_le_pos; lra).
      assert (0 <= (x - mean) * (1 - k))%R by (apply Rmult_le_pos; lra).
      lra.
    + assert (0 <= (mean - x) * k)%R by (apply Rmult_le_pos; lra).
      assert (0 <= (mean - x) * (1 - k))%R by (apply Rmult_le_pos; lra).
      lra.
  - replace ((x - mean) * (x - (x - (x - mean) * k)))%R
      with ((x - mean) * (x - mean) * k)%R by ring.
    assert (0 <= (x - mean) * (x - mean) * k)%R
      by (apply Rmult_le_pos; lra).
    lra.
Qed.

Lemma add_moves_mean_towards_value_witness :
  exists (mean' m2' : R),
    Welford.add 0%nat (VNum 6) [State 2 3 2] =
      Ret (VWelford 0%nat)
        (<[0%nat := State (2 + 1) mean' m2']> [State 2 3 2]) /\
    (3 <= mean' <= 6 \/ 6 <= mean' <= 3)%R /\
    (2 <= m2')%R.
Proof.
  apply (add_moves_mean_towards_value [State 2 3 2] 0%nat 2 3 2 6);
    [reflexivity | lia].
Defined.
